(** * Verification of [rotation_visualisierung.py]

    The script builds the 2x2 rotation matrix of a fixed angle, applies it to
    one vector, prints both, draws an annotated figure and saves it.

    Numbers: NumPy's [float64] values are modelled by the real numbers [R] of
    the Standard Library, so [np.cos], [np.sin], [*], [+] and [-] are the exact
    operations; the integer array [np.array([1, 0])] holds values of [Z].
    Module [F64] adds the rounding of [np.radians] to binary64, which matters
    at large angles.
    Arrays are Python-side nested lists, so a matrix is a [list (list R)] and
    shape errors are explicit results. *)

From Stdlib Require Import Reals Machin Lra Lia ZArith String Ascii Bool List.
From Stdlib Require Import DecimalString.
Import ListNotations.

Open Scope R_scope.

(** ** Exceptions and fallible results *)

Inductive exn : Type :=
| ValueError (msg : string)
| IndexError (msg : string)
| OSError (msg : string).

Inductive result (A : Type) : Type :=
| Ok (a : A)
| Raise (e : exn).

Arguments Ok {A} a.
Arguments Raise {A} e.

(** ** The part of NumPy the script uses *)

Module Np.

Definition vector := list R.
Definition matrix := list (list R).

(** [np.radians]: multiplication by pi/180, here without rounding; the
    rounding to binary64 is in module [F64]. *)
Definition radians (x : R) : R := x * (PI / 180).

(** Shape of a two-dimensional array given by its rows; the empty list is
    the 0x0 array, and ragged nested lists, which [np.array] does not turn
    into a numeric 2-D array, have none. *)
Definition shape (A : matrix) : option (nat * nat) :=
  match A with
  | [] => Some (0%nat, 0%nat)
  | r :: rs =>
      if forallb (fun r' => Nat.eqb (length r') (length r)) rs
      then Some (length A, length r)
      else None
  end.

(** Sum of the element-wise products, accumulated from the left. *)
Definition dot (u v : vector) : R :=
  fold_left (fun acc p => acc + fst p * snd p) (combine u v) 0.

(** Promotion of an integer array to [float64]. *)
Definition astype_float (v : list Z) : vector := map IZR v.

(** [A @ v] for a 2-D [A] and a 1-D [v]: the inner dimensions must agree,
    otherwise NumPy raises [ValueError]. *)
Definition matvec (A : matrix) (v : vector) : result vector :=
  match shape A with
  | Some (_, k) =>
      if Nat.eqb k (length v)
      then Ok (map (fun row => dot row v) A)
      else Raise (ValueError "matmul: mismatch in core dimension")
  | None => Raise (ValueError "matmul: ragged operand")
  end.

(** [A.T] *)
Definition transpose (A : matrix) : matrix :=
  match A with
  | [] => []
  | r :: _ => map (fun j => map (fun row => nth j row 0) A) (seq 0 (length r))
  end.

(** [A @ B] for two 2-D arrays. *)
Definition matmul (A B : matrix) : result matrix :=
  match shape A, shape B with
  | Some (_, k), Some (k', _) =>
      if Nat.eqb k k'
      then Ok (map (fun row => map (fun col => dot row col) (transpose B)) A)
      else Raise (ValueError "matmul: mismatch in core dimension")
  | _, _ => Raise (ValueError "matmul: ragged operand")
  end.

(** Total accessors, used in statements at indices that are in range. *)
Definition entry (A : matrix) (i j : nat) : R := nth j (nth i A []) 0.
Definition comp (v : vector) (i : nat) : R := nth i v 0.

(** [A[i, j]] and [v[i]] as the interpreter evaluates them. *)
Definition getitem2 (A : matrix) (i j : nat) : result R :=
  match nth_error A i with
  | Some row =>
      match nth_error row j with
      | Some x => Ok x
      | None => Raise (IndexError "index out of bounds for axis 1")
      end
  | None => Raise (IndexError "index out of bounds for axis 0")
  end.

Definition getitem1 {A : Type} (v : list A) (i : nat) : result A :=
  match nth_error v i with
  | Some x => Ok x
  | None => Raise (IndexError "index out of bounds for axis 0")
  end.

(** Determinant of a 2x2 array and Euclidean norm, as [np.linalg] has
    them; the script itself never calls them. *)
Definition det2 (A : matrix) : R :=
  entry A 0 0 * entry A 1 1 - entry A 0 1 * entry A 1 0.

Definition norm (v : vector) : R := sqrt (dot v v).

Definition eye2 : matrix := [[1; 0]; [0; 1]].

(** [np.linspace(start, stop, num)]: [num] samples [i * step + start] with
    [step = (stop - start) / (num - 1)]; when there is more than one sample
    the last one is set to [stop] itself. *)
Definition linspace (start stop : R) (num : nat) : vector :=
  let div := (num - 1)%nat in
  let step := (stop - start) / INR div in
  map (fun i => if Nat.ltb 1 num && Nat.eqb i div then stop
                else INR i * step + start)
      (seq 0 num).

(** Two arrays agree entry by entry within an absolute tolerance. *)
Definition within (tol : R) (A B : matrix) : Prop :=
  Forall2 (Forall2 (fun a b => Rabs (a - b) <= tol)) A B.

End Np.

(** ** 1. The rotation matrix builder (source lines 14-34)

    The source calls the matrix [R]; that name is the type of the real
    numbers here, so the matrix is [R_] throughout. *)

Definition erstelle_rotationsmatrix (winkel_grad : R) : Np.matrix :=
  let winkel_rad := Np.radians winkel_grad in
  let cos_theta := cos winkel_rad in
  let sin_theta := sin winkel_rad in
  let R_ := [[cos_theta; - sin_theta];
             [sin_theta;   cos_theta]] in
  R_.

(** ** Python text formatting *)

Module Py.

Open Scope string_scope.

Definition nl : string := String (ascii_of_nat 10) "".

(** [s * n] for a string [s]. *)
Fixpoint str_mul (s : string) (n : nat) : string :=
  match n with
  | O => ""
  | S n' => s ++ str_mul s n'
  end.

(** [str(z)] for an integer, Python [int] or [np.int64]. *)
Definition str_int (z : Z) : string := NilZero.string_of_int (Z.to_int z).

Definition digit_char (d : Z) : ascii := ascii_of_nat (48 + Z.to_nat d).

(** The [n] low-order decimal digits of [k], most significant first. *)
Fixpoint digits_fixed (n : nat) (k : Z) : string :=
  match n with
  | O => ""
  | S n' => digits_fixed n' (k / 10) ++ String (digit_char (k mod 10)) ""
  end.

(** Rounding to the nearest integer, ties to the even one: the rounding of
    the [f] presentation type. *)
Definition round_half_even (y : R) : Z :=
  let f := Zfloor y in
  if Rlt_dec (y - IZR f) (1 / 2) then f
  else if Rlt_dec (1 / 2) (y - IZR f) then (f + 1)%Z
  else if Z.even f then f else (f + 1)%Z.

(** [format(x, '.{prec}f')]: sign, integer digits, and [prec] digits after
    the point; no point when [prec] is 0. *)
Definition format_f (prec : nat) (x : R) : string :=
  let n := round_half_even (Rabs x * 10 ^ prec) in
  let scale := (10 ^ Z.of_nat prec)%Z in
  (if Rlt_dec x 0 then "-" else "")
    ++ NilZero.string_of_uint (N.to_uint (Z.to_N (n / scale)))
    ++ (if Nat.eqb prec 0 then ""
        else "." ++ digits_fixed prec (n mod scale)).

(** Numbers are right-aligned in a field of minimum width [w]. *)
Definition pad_left (w : nat) (s : string) : string :=
  str_mul " " (w - String.length s) ++ s.

(** A format specification [{x:W.Pf}]; [{x:.Pf}] has width 0. *)
Record fspec : Type := FixedF { width : nat; precision : nat }.

Definition format_spec (sp : fspec) (x : R) : string :=
  pad_left (width sp) (format_f (precision sp) x).

(** What a replacement field of the script shows. *)
Inductive quantity : Type := Angle | MatrixEntry | OriginalVec | RotatedVec.

Inductive ndarray : Type :=
| IntArr (v : list Z)
| FloatArr (v : Np.vector)
| FloatMat (A : Np.matrix).

(** The replacement fields that occur in the script: an integer without a
    specification, a float with one, a whole array without one. *)
Inductive field : Type :=
| FInt (z : Z)
| FFloat (x : R) (sp : fspec)
| FArray (a : ndarray).

(** An f-string is a sequence of literal text and replacement fields. *)
Inductive part : Type :=
| Lit (s : string)
| Repl (q : quantity) (f : field).

Definition fstring := list part.

(** Number of characters after the first decimal point, if there is one. *)
Fixpoint decimals_of (s : string) : option nat :=
  match s with
  | "" => None
  | String c s' => if Ascii.eqb c "." then Some (String.length s') else decimals_of s'
  end.

Section Render.

(** [str] of an array is NumPy's, taken as a parameter. *)
Variable np_str : ndarray -> string.

Definition render_field (f : field) : string :=
  match f with
  | FInt z => str_int z
  | FFloat x sp => format_spec sp x
  | FArray a => np_str a
  end.

Definition render_part (p : part) : string :=
  match p with
  | Lit s => s
  | Repl _ f => render_field f
  end.

Definition render (fs : fstring) : string :=
  fold_right (fun p acc => render_part p ++ acc) "" fs.

End Render.

(** The fields of an f-string that show a given quantity. *)
Definition fields_of (q : quantity) (fs : fstring) : list field :=
  flat_map (fun p =>
    match p with
    | Repl q' f =>
        match q, q' with
        | Angle, Angle | MatrixEntry, MatrixEntry
        | OriginalVec, OriginalVec | RotatedVec, RotatedVec => [f]
        | _, _ => []
        end
    | Lit _ => []
    end) fs.

End Py.

(** Sequencing of fallible evaluations: the first exception is the result. *)
Definition rbind {A B : Type} (r : result A) (k : A -> result B) : result B :=
  match r with
  | Ok a => k a
  | Raise e => Raise e
  end.

Notation "'let?' x ':=' r 'in' k" := (rbind r (fun x => k))
  (at level 10, x name, r at level 100, k at level 200).

(** ** 2. The script's configuration and its texts *)

(** Line 41. *)
Definition WINKEL : Z := 45.

(** Line 53: [np.array([1, 0])], an integer array. *)
Definition original_vektor : list Z := [1; 0]%Z.

Module Report.

Import Py.
Open Scope string_scope.

(** Line 47: [f"Rotationsmatrix für {WINKEL}°:"] *)
Definition titel_zeile (WINKEL : Z) : fstring :=
  [Lit "Rotationsmatrix für "; Repl Angle (FInt WINKEL); Lit "°:"].

(** Line 49: [print(R)] shows [str(R)]. *)
Definition matrix_zeile (R_ : Np.matrix) : fstring :=
  [Repl MatrixEntry (FArray (FloatMat R_))].

(** Line 58: [f"Original-Vektor:     {original_vektor}"] *)
Definition original_zeile (original_vektor : list Z) : fstring :=
  [Lit "Original-Vektor:     "; Repl OriginalVec (FArray (IntArr original_vektor))].

(** Line 59: [f"Gedrehter Vektor:    {gedrehter_vektor}"] *)
Definition gedreht_zeile (gedrehter_vektor : Np.vector) : fstring :=
  [Lit "Gedrehter Vektor:    "; Repl RotatedVec (FArray (FloatArr gedrehter_vektor))].

(** Line 91: the legend label of the original vector. *)
Definition original_label (original_vektor : list Z) : result fstring :=
  let? o0 := Np.getitem1 original_vektor 0 in
  let? o1 := Np.getitem1 original_vektor 1 in
  Ok [Lit "Original: ["; Repl OriginalVec (FInt o0); Lit ", ";
      Repl OriginalVec (FInt o1); Lit "]"].

(** Line 97: the legend label of the rotated vector, three decimals. *)
Definition gedreht_label (WINKEL : Z) (gedrehter_vektor : Np.vector) : result fstring :=
  let? g0 := Np.getitem1 gedrehter_vektor 0 in
  let? g1 := Np.getitem1 gedrehter_vektor 1 in
  Ok [Lit "Gedreht ("; Repl Angle (FInt WINKEL); Lit "°): [";
      Repl RotatedVec (FFloat g0 (FixedF 0 3)); Lit ", ";
      Repl RotatedVec (FFloat g1 (FixedF 0 3)); Lit "]"].

(** Lines 131-140: the text block drawn into the figure.  The fields are
    evaluated from left to right; an index read twice is bound once. *)
Definition matrix_text (WINKEL : Z) (R_ : Np.matrix)
    (gedrehter_vektor : Np.vector) (original_vektor : list Z) : result fstring :=
  let? r00 := Np.getitem2 R_ 0 0 in
  let? r01 := Np.getitem2 R_ 0 1 in
  let? r10 := Np.getitem2 R_ 1 0 in
  let? r11 := Np.getitem2 R_ 1 1 in
  let? g0 := Np.getitem1 gedrehter_vektor 0 in
  let? o0 := Np.getitem1 original_vektor 0 in
  let? g1 := Np.getitem1 gedrehter_vektor 1 in
  let? o1 := Np.getitem1 original_vektor 1 in
  Ok [Lit "Rotationsmatrix R("; Repl Angle (FInt WINKEL); Lit "°):"; Lit nl;
      Lit "┌                      ┐"; Lit nl;
      Lit "│ "; Repl MatrixEntry (FFloat r00 (FixedF 7 4)); Lit "  ";
                Repl MatrixEntry (FFloat r01 (FixedF 7 4)); Lit " │"; Lit nl;
      Lit "│ "; Repl MatrixEntry (FFloat r10 (FixedF 7 4)); Lit "  ";
                Repl MatrixEntry (FFloat r11 (FixedF 7 4)); Lit " │"; Lit nl;
      Lit "└                      ┘"; Lit nl;
      Lit nl;
      Lit "Berechnung:"; Lit nl;
      Lit "v' = R · v"; Lit nl;
      Lit "["; Repl RotatedVec (FFloat g0 (FixedF 0 4)); Lit "]   [";
               Repl MatrixEntry (FFloat r00 (FixedF 0 4)); Lit "  ";
               Repl MatrixEntry (FFloat r01 (FixedF 0 4)); Lit "]   [";
               Repl OriginalVec (FInt o0); Lit "]"; Lit nl;
      Lit "["; Repl RotatedVec (FFloat g1 (FixedF 0 4)); Lit "] = [";
               Repl MatrixEntry (FFloat r10 (FixedF 0 4)); Lit "  ";
               Repl MatrixEntry (FFloat r11 (FixedF 0 4)); Lit "] · [";
               Repl OriginalVec (FInt o1); Lit "]"].

(** Fields that show a matrix entry or a vector component, as opposed to
    the angle. *)
Definition value_quantity (q : quantity) : bool :=
  match q with
  | Angle => false
  | MatrixEntry | OriginalVec | RotatedVec => true
  end.

(** "Four decimal places for every matrix and vector value": each field
    showing such a value renders with exactly four characters after its
    decimal point. *)
Definition four_decimals_everywhere (np_str : ndarray -> string) (fs : fstring) : Prop :=
  forall (q : quantity) (f : field),
    value_quantity q = true ->
    In f (fields_of q fs) ->
    decimals_of (render_field np_str f) = Some 4%nat.

(** A field that hands a whole array to NumPy's [str], without a format
    specification. *)
Definition whole_array (f : field) : bool :=
  match f with
  | FArray _ => true
  | FInt _ | FFloat _ _ => false
  end.

End Report.

(** ** 3. The script as an effectful program *)

Module Script.

Import Py Report.
Open Scope string_scope.

(** What the process does to the outside: a [print] call with the text it
    writes, a call into the plotting toolkit with its text argument (the
    empty string when it has none), the write of the image file, and the
    interactive window. *)
Inductive event : Type :=
| EPrint (s : string)
| EDraw (call : string) (text : string)
| ESaveFig (fname : string) (dpi : Z)
| EShow.

(** The outside world decides whether writing a file fails, and how. *)
Record world : Type := { fs_write : string -> option exn }.

(** A statement runs in a world, extends the trace of events and either
    completes or raises. *)
Definition script (A : Type) : Type :=
  world -> list event -> list event * result A.

Definition ret {A : Type} (a : A) : script A := fun _ tr => (tr, Ok a).

Definition bind {A B : Type} (c : script A) (k : A -> script B) : script B :=
  fun w tr =>
    match c w tr with
    | (tr', Ok a) => k a w tr'
    | (tr', Raise e) => (tr', Raise e)
    end.

Notation "x <- c ;; k" := (bind c (fun x => k))
  (at level 61, c at next level, right associativity).
Notation "c ;; k" := (bind c (fun _ => k))
  (at level 61, right associativity).

Definition emit (ev : event) : script unit := fun _ tr => ((tr ++ [ev])%list, Ok tt).

Definition lift {A : Type} (r : result A) : script A := fun _ tr => (tr, r).

(** [print] in front of a console that takes every text; a console that
    rejects one is in module [Konsole]. *)
Definition print (s : string) : script unit := emit (EPrint s).
Definition draw (call text : string) : script unit := emit (EDraw call text).
Definition show : script unit := emit EShow.

(** [plt.savefig]: one attempt to write the file; a failure is raised. *)
Definition savefig (fname : string) (dpi : Z) : script unit :=
  fun w tr =>
    ((tr ++ [ESaveFig fname dpi])%list,
     match fs_write w fname with
     | None => Ok tt
     | Some e => Raise e
     end).

(** [for x in xs: body(x)] *)
Fixpoint for_each {A : Type} (xs : list A) (body : A -> script unit) : script unit :=
  match xs with
  | [] => ret tt
  | x :: xs' => body x ;; for_each xs' body
  end.

(** Exit status of the interpreter: 0 after the last statement, 1 after an
    exception that nothing caught. *)
Definition exit_status {A : Type} (r : result A) : Z :=
  match r with
  | Ok _ => 0%Z
  | Raise _ => 1%Z
  end.

Definition prints (tr : list event) : list string :=
  flat_map (fun ev => match ev with EPrint s => [s] | _ => [] end) tr.

Definition savefig_attempts (tr : list event) : nat :=
  List.length (filter (fun ev => match ev with ESaveFig _ _ => true | _ => false end) tr).

Definition erfolg_meldung : string :=
  "✓ Visualisierung gespeichert als 'rotation_visualisierung.png'".

Section Main.

Variable np_str : ndarray -> string.

(** Lines 41-160, statement by statement.  The numeric arguments of the
    drawing calls stay inside the toolkit; their texts are recorded. *)
Definition main : script unit :=
  let R_ := erstelle_rotationsmatrix (IZR WINKEL) in
  print (str_mul "=" 50) ;;
  print (render np_str (titel_zeile WINKEL)) ;;
  print (str_mul "=" 50) ;;
  print (render np_str (matrix_zeile R_)) ;;
  print "" ;;
  gedrehter_vektor <- lift (Np.matvec R_ (Np.astype_float original_vektor)) ;;
  print (render np_str (original_zeile original_vektor)) ;;
  print (render np_str (gedreht_zeile gedrehter_vektor)) ;;
  print "" ;;
  draw "style.use" "dark_background" ;;
  draw "subplots" "" ;;
  draw "fig.patch.set_facecolor" "" ;;
  draw "ax.set_facecolor" "" ;;
  draw "ax.axhline" "" ;;
  draw "ax.axvline" "" ;;
  draw "ax.grid" "" ;;
  let kreis_label := "Einheitskreis" in
  draw "ax.plot" kreis_label ;;
  l_orig <- lift (original_label original_vektor) ;;
  draw "ax.quiver" (render np_str l_orig) ;;
  l_gedreht <- lift (gedreht_label WINKEL gedrehter_vektor) ;;
  draw "ax.quiver" (render np_str l_gedreht) ;;
  let bogen_label := "Drehwinkel: " ++ str_int WINKEL ++ "°" in
  draw "ax.plot" bogen_label ;;
  draw "ax.annotate" (str_int WINKEL ++ "°") ;;
  draw "ax.set_xlim" "" ;;
  draw "ax.set_ylim" "" ;;
  draw "ax.set_aspect" "equal" ;;
  draw "ax.set_title" ("2D-Rotationsmatrix: Drehung um " ++ str_int WINKEL ++ "°") ;;
  draw "ax.set_xlabel" "X-Achse" ;;
  draw "ax.set_ylabel" "Y-Achse" ;;
  draw "ax.legend" "" ;;
  for_each [kreis_label; render np_str l_orig; render np_str l_gedreht; bogen_label]
    (fun text => draw "text.set_color" text) ;;
  text <- lift (matrix_text WINKEL R_ gedrehter_vektor original_vektor) ;;
  draw "ax.text" (render np_str text) ;;
  draw "plt.tight_layout" "" ;;
  savefig "rotation_visualisierung.png" 150 ;;
  show ;;
  print (str_mul "=" 50) ;;
  print erfolg_meldung ;;
  print (str_mul "=" 50).

Definition run (w : world) : list event * result unit := main w [].

End Main.

End Script.

(** ** 4. The curves handed to the plotting toolkit (lines 82-115) *)

Module Figur.

(** Line 82. *)
Definition theta : Np.vector := Np.linspace 0 (2 * PI) 100.

(** Lines 83-85: the x and y coordinates of the reference circle,
    [np.cos(theta)] and [np.sin(theta)]. *)
Definition einheitskreis : Np.vector * Np.vector :=
  (map cos theta, map sin theta).

(** Line 100. *)
Definition winkel_bogen (WINKEL : Z) : Np.vector :=
  Np.linspace 0 (Np.radians (IZR WINKEL)) 30.

(** Line 101. *)
Definition bogen_radius : R := 0.3.

(** Lines 102-104: the coordinates of the arc that depicts the angle. *)
Definition rotationsbogen (WINKEL : Z) : Np.vector * Np.vector :=
  (map (fun t => bogen_radius * cos t) (winkel_bogen WINKEL),
   map (fun t => bogen_radius * sin t) (winkel_bogen WINKEL)).

(** The points of a curve given by its two coordinate arrays. *)
Definition punkte (kurve : Np.vector * Np.vector) : list (R * R) :=
  combine (fst kurve) (snd kurve).

(** Lines 114-115: [set_xlim(-1.5, 1.5)] and [set_ylim(-1.5, 1.5)]. *)
Definition xlim : R * R := (-1.5, 1.5).
Definition ylim : R * R := (-1.5, 1.5).

Definition im_achsenbereich (p : R * R) : Prop :=
  fst xlim <= fst p <= snd xlim /\ fst ylim <= snd p <= snd ylim.

End Figur.

(** ** 5. The conversion to radians in binary64

    The builder above converts degrees to radians exactly.  [np.radians]
    multiplies by the double constant pi/180 and rounds the product to
    binary64; this module has that rounding, to measure what the exact
    conversion hides at large angles.  The exponent range is unbounded:
    overflow and subnormal numbers are not modelled, and the cosine and sine
    of the converted angle are exact. *)

Module F64.

(** Exponent of the last of the 53 significant bits of a nonzero [x]. *)
Definition ulp_exp (x : R) : Z := (Zfloor (ln (Rabs x) / ln 2) - 52)%Z.

(** Rounding to the nearest binary64 number, ties to even. *)
Definition round (x : R) : R :=
  if Req_dec_T x 0 then 0
  else IZR (Py.round_half_even (x * powerRZ 2 (- ulp_exp x)))
       * powerRZ 2 (ulp_exp x).

(** The constant [NPY_PI / 180.0], the double 0x1.1df46a2529d39p-6. *)
Definition deg2rad : R := IZR 5030569068109113 * powerRZ 2 (-58).

(** [np.radians] on binary64. *)
Definition radians (x : R) : R := round (x * deg2rad).

(** Lines 14-34 with this conversion. *)
Definition erstelle_rotationsmatrix (winkel_grad : R) : Np.matrix :=
  let winkel_rad := radians winkel_grad in
  let cos_theta := cos winkel_rad in
  let sin_theta := sin winkel_rad in
  let R_ := [[cos_theta; - sin_theta];
             [sin_theta;   cos_theta]] in
  R_.

(** A bound on the error of the conversion, per degree. *)
Definition kappa : R := 1 / 10 ^ 17.

End F64.

(** ** NumPy's text for the arrays the script prints

    [str(a)] with the default print options (precision 8, floats with as few
    fractional digits as the array needs, at most 8), for arrays that fit on
    one line per row.  NumPy switches the whole array to exponent notation
    when a magnitude is at least 1e8, below 1e-4, or more than 1000 times
    another; [positional] is the opposite condition, under which the text
    below is the one NumPy prints. *)

Module NpText.

Import Py.
Open Scope string_scope.

Fixpoint rev_string (s acc : string) : string :=
  match s with
  | "" => acc
  | String c s' => rev_string s' (String c acc)
  end.

Fixpoint lstrip_zeros (s : string) : string :=
  match s with
  | String "0" s' => lstrip_zeros s'
  | _ => s
  end.

(** Trailing zeros of the fractional digits are trimmed. *)
Definition rstrip_zeros (s : string) : string :=
  rev_string (lstrip_zeros (rev_string s "")) "".

(** The text before and after the first decimal point. *)
Fixpoint split_point (s : string) : string * string :=
  match s with
  | "" => ("", "")
  | String c s' =>
      if Ascii.eqb c "." then ("", s')
      else let (i, f) := split_point s' in (String c i, f)
  end.

(** One float: integer part with its sign, and fractional digits. *)
Definition float_parts (x : R) : string * string :=
  let (i, f) := split_point (format_f 8 x) in (i, rstrip_zeros f).

Definition max_length (ss : list string) : nat :=
  fold_right (fun s m => Nat.max (String.length s) m) 0%nat ss.

Definition pad_right (w : nat) (s : string) : string :=
  s ++ str_mul " " (w - String.length s).

Fixpoint join (sep : string) (ss : list string) : string :=
  match ss with
  | [] => ""
  | [s] => s
  | s :: ss' => s ++ sep ++ join sep ss'
  end.

(** Every element is aligned on the decimal point, in the common width of
    the whole array. *)
Definition float_elem (wl wr : nat) (p : string * string) : string :=
  pad_left wl (fst p) ++ "." ++ pad_right wr (snd p).

Definition row_str (elems : list string) : string :=
  "[" ++ join " " elems ++ "]".

Definition float_array_str (v : Np.vector) : string :=
  let ps := map float_parts v in
  let wl := max_length (map fst ps) in
  let wr := max_length (map snd ps) in
  row_str (map (float_elem wl wr) ps).

Definition float_matrix_str (A : Np.matrix) : string :=
  let pss := map (map float_parts) A in
  let wl := max_length (map fst (concat pss)) in
  let wr := max_length (map snd (concat pss)) in
  "[" ++ join (nl ++ " ") (map (fun ps => row_str (map (float_elem wl wr) ps)) pss) ++ "]".

Definition int_array_str (v : list Z) : string :=
  let ss := map str_int v in
  row_str (map (pad_left (max_length ss)) ss).

Definition numpy_str (a : ndarray) : string :=
  match a with
  | IntArr v => int_array_str v
  | FloatArr v => float_array_str v
  | FloatMat A => float_matrix_str A
  end.

(** The condition under which NumPy keeps positional notation. *)
Definition positional (vals : list R) : Prop :=
  forall x y : R, In x vals -> In y vals -> x <> 0 -> y <> 0 ->
    1 / 10 ^ 4 <= Rabs x < 10 ^ 8 /\ Rabs x / Rabs y <= 1000.

(** [needle in hay] *)
Fixpoint prefix_of (p s : string) : bool :=
  match p, s with
  | "", _ => true
  | String a p', String b s' => Ascii.eqb a b && prefix_of p' s'
  | _, _ => false
  end.

Fixpoint contains (needle hay : string) : bool :=
  prefix_of needle hay
  || match hay with
     | "" => false
     | String _ hay' => contains needle hay'
     end.

End NpText.

(** ** The console may reject a text

    [print] raises when the console cannot take the text, for instance
    [UnicodeEncodeError], a [ValueError], when its encoding lacks a
    character.  The run in front of such a console is the run of [main] cut
    at the first print that is rejected: the statements before it have
    happened, the rejected text is not written, nothing after it runs. *)

Module Konsole.

Import Py Script.

Record konsole : Type := { stdout_write : string -> option exn }.

Fixpoint replay (k : konsole) (tr : list event) (final : result unit)
  : list event * result unit :=
  match tr with
  | [] => ([], final)
  | EPrint s :: tr' =>
      match stdout_write k s with
      | Some e => ([], Raise e)
      | None => let (done, r) := replay k tr' final in (EPrint s :: done, r)
      end
  | ev :: tr' => let (done, r) := replay k tr' final in (ev :: done, r)
  end.

Definition run_konsole (k : konsole) (np_str : ndarray -> string) (w : world)
  : list event * result unit :=
  replay k (fst (run np_str w)) (snd (run np_str w)).

(** Number of lines a printed text occupies. *)
Fixpoint text_lines (s : string) : nat :=
  match s with
  | EmptyString => 1%nat
  | String c s' =>
      if Ascii.eqb c (ascii_of_nat 10) then S (text_lines s') else text_lines s'
  end.

Definition console_lines (tr : list event) : nat :=
  fold_right (fun s n => (text_lines s + n)%nat) 0%nat (prints tr).

End Konsole.

(** ** Basic facts about the array operations *)



Lemma dot_2 (a b x y : R) : Np.dot [a; b] [x; y] = a * x + b * y.
Proof. unfold Np.dot; simpl; ring. Qed.

Lemma length_2_inv {A : Type} (l : list A) :
  length l = 2%nat -> exists x y, l = [x; y].
Proof.
  destruct l as [|x [|y [|z l]]]; simpl; try discriminate.
  intros _; now exists x, y.
Qed.

(** A 2-D array of shape (2, 2) is a pair of rows of two entries. *)
Lemma shape_2x2_inv (A : Np.matrix) :
  Np.shape A = Some (2%nat, 2%nat) ->
  exists a b c d, A = [[a; b]; [c; d]].
Proof.
  unfold Np.shape.
  destruct A as [|r rs]; [discriminate|].
  destruct (forallb _ rs) eqn:Hall; [|discriminate].
  intros H; injection H as Hlen Hr.
  destruct rs as [|r' [|r'' rs]]; simpl in Hlen; try discriminate.
  simpl in Hall. rewrite andb_true_r in Hall.
  apply Nat.eqb_eq in Hall. rewrite Hr in Hall.
  destruct (length_2_inv r Hr) as (a & b & ->).
  destruct (length_2_inv r' Hall) as (c & d & ->).
  now exists a, b, c, d.
Qed.

Lemma matvec_2x2 (a b c d x y : R) :
  Np.matvec [[a; b]; [c; d]] [x; y] = Ok [a * x + b * y; c * x + d * y].
Proof. unfold Np.matvec; simpl. now rewrite !dot_2. Qed.

Lemma matmul_2x2 (a b c d a' b' c' d' : R) :
  Np.matmul [[a; b]; [c; d]] [[a'; b']; [c'; d']] =
  Ok [[a * a' + b * c'; a * b' + b * d'];
      [c * a' + d * c'; c * b' + d * d']].
Proof. unfold Np.matmul; simpl. now rewrite !dot_2. Qed.

Lemma radians_plus (a b : R) : Np.radians (a + b) = Np.radians a + Np.radians b.
Proof. unfold Np.radians; field. Qed.

Lemma radians_360 : Np.radians 360 = 2 * PI.
Proof. unfold Np.radians; field. Qed.

Lemma radians_0 : Np.radians 0 = 0.
Proof. unfold Np.radians; ring. Qed.

Lemma cos_wrap (x : R) (k : Z) : cos (x + 2 * IZR k * PI) = cos x.
Proof.
  destruct (Z_le_gt_dec 0 k) as [Hk|Hk].
  - rewrite <- (Z2Nat.id k Hk), <- INR_IZR_INZ. apply cos_period.
  - rewrite <- (cos_period (x + 2 * IZR k * PI) (Z.to_nat (- k))).
    rewrite INR_IZR_INZ, Z2Nat.id by lia.
    rewrite opp_IZR. f_equal. ring.
Qed.

Lemma sin_wrap (x : R) (k : Z) : sin (x + 2 * IZR k * PI) = sin x.
Proof.
  destruct (Z_le_gt_dec 0 k) as [Hk|Hk].
  - rewrite <- (Z2Nat.id k Hk), <- INR_IZR_INZ. apply sin_period.
  - rewrite <- (sin_period (x + 2 * IZR k * PI) (Z.to_nat (- k))).
    rewrite INR_IZR_INZ, Z2Nat.id by lia.
    rewrite opp_IZR. f_equal. ring.
Qed.

(** Equality of array literals, entry by entry. *)
Ltac entrywise :=
  repeat match goal with
         | |- Ok _ = Ok _ => apply f_equal
         | |- cons _ _ = cons _ _ => apply f_equal2
         | |- nil = nil => reflexivity
         end.

Lemma sin2_cos2' (x : R) : cos x * cos x + sin x * sin x = 1.
Proof. generalize (sin2_cos2 x); unfold Rsqr; lra. Qed.

(** ** The builder *)


(** C2: the matrix built for any angle is orthonormal: its transpose times
    itself is the identity and its determinant is 1 (exactly so in real
    arithmetic, hence within every tolerance). *)
Theorem rotationsmatrix_orthonormal (winkel_grad : R) :
  let M := erstelle_rotationsmatrix winkel_grad in
  Np.matmul (Np.transpose M) M = Ok Np.eye2 /\ Np.det2 M = 1.
Proof.
  unfold erstelle_rotationsmatrix; cbv zeta.
  set (t := Np.radians winkel_grad).
  pose proof (sin2_cos2' t) as H.
  split.
  - cbn [Np.transpose length seq map nth].
    rewrite matmul_2x2. unfold Np.eye2.
    entrywise; lra.
  - unfold Np.det2, Np.entry; cbn [nth]. lra.
Qed.

(** C3: for a 2x2 array and a 2-vector, [R @ v] has the components
    R00*v0 + R01*v1 and R10*v0 + R11*v1. *)
Theorem matvec_components (A : Np.matrix) (v : Np.vector) :
  Np.shape A = Some (2%nat, 2%nat) ->
  length v = 2%nat ->
  Np.matvec A v =
  Ok [Np.entry A 0 0 * Np.comp v 0 + Np.entry A 0 1 * Np.comp v 1;
      Np.entry A 1 0 * Np.comp v 0 + Np.entry A 1 1 * Np.comp v 1].
Proof.
  intros HA Hv.
  destruct (shape_2x2_inv A HA) as (a & b & c & d & ->).
  destruct (length_2_inv v Hv) as (x & y & ->).
  apply matvec_2x2.
Qed.

Lemma matvec_components_witness :
  Np.matvec [[1; 2]; [3; 4]] [5; 6] =
  Ok [Np.entry [[1; 2]; [3; 4]] 0 0 * Np.comp [5; 6] 0
        + Np.entry [[1; 2]; [3; 4]] 0 1 * Np.comp [5; 6] 1;
      Np.entry [[1; 2]; [3; 4]] 1 0 * Np.comp [5; 6] 0
        + Np.entry [[1; 2]; [3; 4]] 1 1 * Np.comp [5; 6] 1].
Proof. apply (matvec_components [[1; 2]; [3; 4]] [5; 6]); reflexivity. Defined.

(** With exact conversion to radians the product of the matrices built for
    two angles is the matrix built for their sum. *)
Lemma rotationsmatrix_composition (th1 th2 : R) :
  Np.matmul (erstelle_rotationsmatrix th1) (erstelle_rotationsmatrix th2)
  = Ok (erstelle_rotationsmatrix (th1 + th2)).
Proof.
  unfold erstelle_rotationsmatrix; cbv zeta.
  rewrite matmul_2x2, radians_plus, cos_plus, sin_plus.
  entrywise; ring.
Qed.

(** With exact conversion to radians the matrix for 360 degrees is the
    matrix for 0 degrees, and adding any whole number of turns to an angle,
    forwards or backwards, leaves the matrix unchanged. *)
Lemma rotationsmatrix_periodic :
  erstelle_rotationsmatrix 360 = erstelle_rotationsmatrix 0
  /\ (forall th : R, erstelle_rotationsmatrix (th + 360) = erstelle_rotationsmatrix th)
  /\ (forall (th : R) (k : Z),
        erstelle_rotationsmatrix (th + 360 * IZR k) = erstelle_rotationsmatrix th).
Proof.
  assert (H : forall (th : R) (k : Z),
             erstelle_rotationsmatrix (th + 360 * IZR k) = erstelle_rotationsmatrix th).
  { intros th k. unfold erstelle_rotationsmatrix; cbv zeta.
    replace (Np.radians (th + 360 * IZR k)) with (Np.radians th + 2 * IZR k * PI)
      by (unfold Np.radians; field).
    now rewrite cos_wrap, sin_wrap. }
  split; [|split].
  - replace 360 with (0 + 360 * IZR 1) at 1 by (simpl; ring). apply H.
  - intros th. replace (th + 360) with (th + 360 * IZR 1) by (simpl; ring). apply H.
  - exact H.
Qed.

(** C7: the matrix built for 0 degrees is the identity matrix. *)
Theorem rotationsmatrix_null : erstelle_rotationsmatrix 0 = Np.eye2.
Proof.
  unfold erstelle_rotationsmatrix; cbv zeta.
  rewrite radians_0, cos_0, sin_0, Ropp_0. reflexivity.
Qed.

(** C8: rotation preserves length: the image of any 2-vector under the
    matrix built for any angle has the same Euclidean norm, and the matrix
    has determinant 1, so it neither scales nor reflects. *)
Theorem rotation_preserves_norm (winkel_grad : R) (v : Np.vector) :
  length v = 2%nat ->
  exists v', Np.matvec (erstelle_rotationsmatrix winkel_grad) v = Ok v'
             /\ Np.norm v' = Np.norm v
             /\ Np.det2 (erstelle_rotationsmatrix winkel_grad) = 1.
Proof.
  intros Hv. destruct (length_2_inv v Hv) as (x & y & ->).
  unfold erstelle_rotationsmatrix; cbv zeta.
  set (t := Np.radians winkel_grad).
  pose proof (sin2_cos2' t) as H.
  rewrite matvec_2x2. eexists; split; [reflexivity|]. split.
  - unfold Np.norm. rewrite !dot_2. f_equal.
    replace ((cos t * x + - sin t * y) * (cos t * x + - sin t * y)
             + (sin t * x + cos t * y) * (sin t * x + cos t * y))
      with ((cos t * cos t + sin t * sin t) * (x * x + y * y)) by ring.
    rewrite H. ring.
  - unfold Np.det2, Np.entry; cbn [nth]. lra.
Qed.

Lemma rotation_preserves_norm_witness :
  exists v', Np.matvec (erstelle_rotationsmatrix 30) [3; 4] = Ok v'
             /\ Np.norm v' = Np.norm [3; 4]
             /\ Np.det2 (erstelle_rotationsmatrix 30) = 1.
Proof. apply (rotation_preserves_norm 30 [3; 4]); reflexivity. Defined.

(** ** Text formatting *)

Lemma round_half_even_near (y : R) (n : Z) :
  IZR n - 1 / 2 < y < IZR n + 1 / 2 -> Py.round_half_even y = n.
Proof.
  intros [Hlo Hhi]. unfold Py.round_half_even.
  destruct (Rle_lt_dec (IZR n) y) as [Hge|Hlt].
  - rewrite (Zfloor_eq n y) by lra.
    destruct (Rlt_dec (y - IZR n) (1 / 2)); [reflexivity | lra].
  - assert (Hf : Zfloor y = (n - 1)%Z).
    { apply Zfloor_eq. rewrite minus_IZR. lra. }
    rewrite Hf, minus_IZR.
    destruct (Rlt_dec (y - (IZR n - 1)) (1 / 2)); [lra|].
    destruct (Rlt_dec (1 / 2) (y - (IZR n - 1))); [lia | lra].
Qed.

Lemma round_half_even_tie (f : Z) :
  Py.round_half_even (IZR f + 1 / 2) = if Z.even f then f else (f + 1)%Z.
Proof.
  unfold Py.round_half_even.
  rewrite (Zfloor_eq f) by lra.
  destruct (Rlt_dec _ _); [lra|]. destruct (Rlt_dec _ _); [lra|]. reflexivity.
Qed.

(** Evaluation of the [f] presentation once the scaled magnitude is located
    strictly between two half-integers. *)
Lemma format_f_eval (prec : nat) (x : R) (n : Z) :
  IZR n - 1 / 2 < Rabs x * 10 ^ prec < IZR n + 1 / 2 ->
  Py.format_f prec x =
  ((if Rlt_dec x 0 then "-" else "")
    ++ NilZero.string_of_uint (N.to_uint (Z.to_N (n / 10 ^ Z.of_nat prec)))
    ++ (if Nat.eqb prec 0 then ""
        else "." ++ Py.digits_fixed prec (n mod 10 ^ Z.of_nat prec)))%string.
Proof. intros H. unfold Py.format_f. now rewrite (round_half_even_near _ n H). Qed.

Lemma append_empty_r (s : string) : (s ++ "")%string = s.
Proof. induction s as [|c s IH]; simpl; [reflexivity | now rewrite IH]. Qed.

Lemma decimals_of_app (a s : string) :
  Py.decimals_of a = None ->
  Py.decimals_of (a ++ s) = Py.decimals_of s.
Proof.
  induction a as [|c a IH]; simpl; [reflexivity|].
  destruct (Ascii.eqb c "."); [discriminate | exact IH].
Qed.

Lemma decimals_of_spaces (n : nat) : Py.decimals_of (Py.str_mul " " n) = None.
Proof. induction n as [|n IH]; simpl; [reflexivity | exact IH]. Qed.

Lemma decimals_of_uint_raw (d : Decimal.uint) :
  Py.decimals_of (NilEmpty.string_of_uint d) = None.
Proof. induction d; simpl; auto. Qed.

Lemma decimals_of_uint (d : Decimal.uint) :
  Py.decimals_of (NilZero.string_of_uint d) = None.
Proof.
  unfold NilZero.string_of_uint.
  destruct d; try reflexivity; apply decimals_of_uint_raw.
Qed.

(** An integer is rendered without a decimal point. *)
Lemma decimals_of_str_int (z : Z) : Py.decimals_of (Py.str_int z) = None.
Proof.
  unfold Py.str_int, NilZero.string_of_int.
  destruct (Z.to_int z); [apply decimals_of_uint|].
  simpl. apply decimals_of_uint.
Qed.

Lemma length_append (a b : string) :
  String.length (a ++ b) = (String.length a + String.length b)%nat.
Proof. induction a as [|c a IH]; simpl; [reflexivity | now rewrite IH]. Qed.

Lemma length_digits_fixed (n : nat) (k : Z) :
  String.length (Py.digits_fixed n k) = n.
Proof.
  revert k; induction n as [|n IH]; intros k; simpl; [reflexivity|].
  rewrite length_append, IH. simpl. lia.
Qed.

(** The [f] presentation with a positive precision puts exactly that many
    characters after the decimal point. *)
Lemma decimals_of_format_f (prec : nat) (x : R) :
  prec <> 0%nat -> Py.decimals_of (Py.format_f prec x) = Some prec.
Proof.
  intros Hp. unfold Py.format_f.
  destruct (Nat.eqb_spec prec 0) as [->|_]; [contradiction|].
  assert (Hsign : Py.decimals_of (if Rlt_dec x 0 then "-" else "")%string = None)
    by (destruct (Rlt_dec x 0); reflexivity).
  rewrite decimals_of_app by exact Hsign.
  rewrite decimals_of_app by apply decimals_of_uint.
  simpl. now rewrite length_digits_fixed.
Qed.

Lemma decimals_of_format_spec (w prec : nat) (x : R) :
  prec <> 0%nat ->
  Py.decimals_of (Py.format_spec (Py.FixedF w prec) x) = Some prec.
Proof.
  intros Hp. unfold Py.format_spec, Py.pad_left; simpl.
  rewrite decimals_of_app by apply decimals_of_spaces.
  now apply decimals_of_format_f.
Qed.

Lemma length_str_mul_space (n : nat) : String.length (Py.str_mul " " n) = n.
Proof. induction n as [|n IH]; simpl; [reflexivity | now rewrite IH]. Qed.

(** A field of width [w] is at least [w] characters wide. *)
Lemma length_format_spec (w prec : nat) (x : R) :
  (w <= String.length (Py.format_spec (Py.FixedF w prec) x))%nat.
Proof.
  unfold Py.format_spec, Py.pad_left; simpl.
  rewrite length_append, length_str_mul_space. lia.
Qed.

(** ** The run at 45 degrees *)

Lemma sqrt2_bounds : 1.41421 < sqrt 2 < 1.41422.
Proof.
  split.
  - rewrite <- (sqrt_square 1.41421) by lra. apply sqrt_lt_1; lra.
  - rewrite <- (sqrt_square 1.41422) by lra. apply sqrt_lt_1; lra.
Qed.

Lemma inv_sqrt2_bounds : 0.70710 < 1 / sqrt 2 < 0.70712.
Proof.
  pose proof sqrt2_bounds as [Hlo Hhi].
  assert (Hs : sqrt 2 * sqrt 2 = 2) by (apply sqrt_def; lra).
  assert (He : 1 / sqrt 2 = sqrt 2 / 2) by (field_simplify_eq; lra).
  rewrite He. lra.
Qed.

Lemma format_f_4_near (x : R) :
  0.70710 < x < 0.70712 -> Py.format_f 4 x = "0.7071"%string.
Proof.
  intros Hx.
  rewrite (format_f_eval 4 x 7071) by (rewrite Rabs_pos_eq by lra; simpl; lra).
  destruct (Rlt_dec x 0); [lra | reflexivity].
Qed.

Lemma format_f_4_near_neg (x : R) :
  0.70710 < x < 0.70712 -> Py.format_f 4 (- x) = "-0.7071"%string.
Proof.
  intros Hx.
  rewrite (format_f_eval 4 (- x) 7071)
    by (rewrite Rabs_Ropp, Rabs_pos_eq by lra; simpl; lra).
  destruct (Rlt_dec (- x) 0); [reflexivity | lra].
Qed.

Lemma radians_45 : Np.radians 45 = PI / 4.
Proof. unfold Np.radians; field. Qed.

Lemma cos_45 : cos (Np.radians (IZR WINKEL)) = 1 / sqrt 2.
Proof. unfold WINKEL. now rewrite radians_45, cos_PI4. Qed.

Lemma sin_45 : sin (Np.radians (IZR WINKEL)) = 1 / sqrt 2.
Proof. unfold WINKEL. now rewrite radians_45, sin_PI4. Qed.

Lemma rotationsmatrix_45 :
  erstelle_rotationsmatrix (IZR WINKEL)
  = [[1 / sqrt 2; - (1 / sqrt 2)]; [1 / sqrt 2; 1 / sqrt 2]].
Proof. unfold erstelle_rotationsmatrix; cbv zeta. now rewrite cos_45, sin_45. Qed.

Lemma gedrehter_vektor_45 :
  Np.matvec (erstelle_rotationsmatrix (IZR WINKEL)) (Np.astype_float original_vektor)
  = Ok [1 / sqrt 2; 1 / sqrt 2].
Proof.
  unfold erstelle_rotationsmatrix, WINKEL, original_vektor, Np.astype_float; cbv zeta.
  cbn [map]. rewrite matvec_2x2, radians_45, cos_PI4, sin_PI4.
  entrywise; ring.
Qed.

Import Py Report Script NpText Konsole.

(** Runs [main] symbolically up to the file write. *)
Ltac run_script :=
  cbv [run main bind emit print draw show lift for_each ret savefig];
  rewrite gedrehter_vektor_45;
  cbv [original_label gedreht_label matrix_text rbind
       Np.getitem1 Np.getitem2 nth_error original_vektor
       erstelle_rotationsmatrix app].

(** Every run performs the same events up to the file write; the world only
    decides what follows it. *)
Lemma run_shape (np_str : ndarray -> string) :
  exists tr : list event,
    savefig_attempts tr = 0%nat
    /\ ~ In EShow tr
    /\ prints tr =
       [str_mul "=" 50;
        render np_str (titel_zeile WINKEL);
        str_mul "=" 50;
        render np_str (matrix_zeile (erstelle_rotationsmatrix (IZR WINKEL)));
        "";
        render np_str (original_zeile original_vektor);
        render np_str (gedreht_zeile [1 / sqrt 2; 1 / sqrt 2]);
        ""]
    /\ forall w : world,
         run np_str w =
         match fs_write w "rotation_visualisierung.png" with
         | Some e =>
             ((tr ++ [ESaveFig "rotation_visualisierung.png" 150])%list, Raise e)
         | None =>
             ((tr ++ [ESaveFig "rotation_visualisierung.png" 150; EShow;
                      EPrint (str_mul "=" 50); EPrint erfolg_meldung;
                      EPrint (str_mul "=" 50)])%list, Ok tt)
         end.
Proof.
  exists (removelast (fst (run np_str {| fs_write := fun _ => Some (OSError "") |}))).
  run_script. cbv [fs_write fst removelast].
  split; [reflexivity|].
  split; [simpl; intuition discriminate|].
  split; [reflexivity|].
  intros w. destruct w as [f]; destruct (f _); reflexivity.
Qed.

Lemma savefig_attempts_app (a b : list event) :
  savefig_attempts (a ++ b)%list = (savefig_attempts a + savefig_attempts b)%nat.
Proof. unfold savefig_attempts. now rewrite filter_app, length_app. Qed.

Lemma prints_app (a b : list event) :
  prints (a ++ b)%list = (prints a ++ prints b)%list.
Proof. unfold prints. apply flat_map_app. Qed.

(** Ties go to the even neighbour, as in Python for values that binary
    floating point holds exactly. *)
Example format_f_ties : format_f 2 (1 / 8) = "0.12" /\ format_f 2 (3 / 8) = "0.38".
Proof.
  split; unfold format_f.
  - replace (Rabs (1 / 8) * 10 ^ 2) with (IZR 12 + 1 / 2)
      by (rewrite Rabs_pos_eq by lra; simpl; lra).
    rewrite round_half_even_tie. destruct (Rlt_dec _ 0); [lra | reflexivity].
  - replace (Rabs (3 / 8) * 10 ^ 2) with (IZR 37 + 1 / 2)
      by (rewrite Rabs_pos_eq by lra; simpl; lra).
    rewrite round_half_even_tie. destruct (Rlt_dec _ 0); [lra | reflexivity].
Qed.

(** The text block that the script draws into the figure. *)
Example matrix_text_45 (np_str : ndarray -> string) :
  exists fs : fstring,
    matrix_text WINKEL (erstelle_rotationsmatrix (IZR WINKEL))
                [1 / sqrt 2; 1 / sqrt 2] original_vektor = Ok fs
    /\ render np_str fs =
"Rotationsmatrix R(45°):
┌                      ┐
│  0.7071  -0.7071 │
│  0.7071   0.7071 │
└                      ┘

Berechnung:
v' = R · v
[0.7071]   [0.7071  -0.7071]   [1]
[0.7071] = [0.7071  0.7071] · [0]".
Proof.
  pose proof inv_sqrt2_bounds as Hb.
  eexists. split; [reflexivity|].
  cbv [render fold_right render_part render_field format_spec width precision].
  rewrite cos_45, sin_45.
  rewrite (format_f_4_near _ Hb), (format_f_4_near_neg _ Hb).
  reflexivity.
Qed.

Lemma sqrt2_bounds_fine : 1.41421356237 < sqrt 2 < 1.41421356238.
Proof.
  split.
  - rewrite <- (sqrt_square 1.41421356237) by lra. apply sqrt_lt_1; lra.
  - rewrite <- (sqrt_square 1.41421356238) by lra. apply sqrt_lt_1; lra.
Qed.

Lemma inv_sqrt2_bounds_fine : 0.707106781185 < 1 / sqrt 2 < 0.707106781190.
Proof.
  pose proof sqrt2_bounds_fine as [Hlo Hhi].
  assert (Hs : sqrt 2 * sqrt 2 = 2) by (apply sqrt_def; lra).
  assert (He : 1 / sqrt 2 = sqrt 2 / 2) by (field_simplify_eq; lra).
  rewrite He. lra.
Qed.

Lemma format_f_8_inv_sqrt2 :
  format_f 8 (1 / sqrt 2) = "0.70710678"
  /\ format_f 8 (- (1 / sqrt 2)) = "-0.70710678".
Proof.
  pose proof inv_sqrt2_bounds_fine as Hb. split.
  - rewrite (format_f_eval 8 _ 70710678) by (rewrite Rabs_pos_eq by lra; simpl; lra).
    destruct (Rlt_dec _ 0); [lra | reflexivity].
  - rewrite (format_f_eval 8 _ 70710678)
      by (rewrite Rabs_Ropp, Rabs_pos_eq by lra; simpl; lra).
    destruct (Rlt_dec _ 0); [reflexivity | lra].
Qed.

Lemma numpy_str_45 :
  numpy_str (FloatArr [1 / sqrt 2; 1 / sqrt 2]) = "[0.70710678 0.70710678]"
  /\ numpy_str (FloatMat [[1 / sqrt 2; - (1 / sqrt 2)]; [1 / sqrt 2; 1 / sqrt 2]])
     = "[[ 0.70710678 -0.70710678]
 [ 0.70710678  0.70710678]]"
  /\ numpy_str (IntArr [1; 0]%Z) = "[1 0]".
Proof.
  destruct format_f_8_inv_sqrt2 as [Hp Hn].
  unfold numpy_str, float_array_str, float_matrix_str, float_parts.
  cbn [map]. rewrite Hp, Hn. repeat split; reflexivity.
Qed.

Lemma positional_same (x : R) (vals : list R) :
  1 / 10 ^ 4 <= x < 10 ^ 8 ->
  (forall y, In y vals -> y = x \/ y = - x) ->
  positional vals.
Proof.
  intros Hx Hv a b Ha Hb _ _.
  assert (Habs : forall y, In y vals -> Rabs y = x).
  { intros y Hy. destruct (Hv y Hy) as [-> | ->];
      [|rewrite Rabs_Ropp]; apply Rabs_pos_eq; lra. }
  rewrite (Habs a Ha), (Habs b Hb). split; [exact Hx|].
  unfold Rdiv. rewrite Rinv_r by lra. lra.
Qed.

Lemma replay_accepted (k : konsole) (tr : list event) (r : result unit) :
  Forall (fun s => stdout_write k s = None) (prints tr) ->
  replay k tr r = (tr, r).
Proof.
  induction tr as [|ev tr IH]; intros H; [reflexivity|].
  destruct ev; cbn [replay]; cbn [prints flat_map app] in H.
  - inversion H as [|? ? Hs Ht]; subst. rewrite Hs.
    fold (prints tr) in Ht. now rewrite (IH Ht).
  - fold (prints tr) in H. now rewrite (IH H).
  - fold (prints tr) in H. now rewrite (IH H).
  - fold (prints tr) in H. now rewrite (IH H).
Qed.

(** The run with NumPy's array text: the console lines before the file
    write, as they appear. *)
Lemma run_shape_numpy :
  exists tr : list event,
    savefig_attempts tr = 0%nat
    /\ ~ In EShow tr
    /\ prints tr =
       [str_mul "=" 50;
        "Rotationsmatrix für 45°:";
        str_mul "=" 50;
        "[[ 0.70710678 -0.70710678]
 [ 0.70710678  0.70710678]]";
        "";
        "Original-Vektor:     [1 0]";
        "Gedrehter Vektor:    [0.70710678 0.70710678]";
        ""]
    /\ forall w : world,
         run numpy_str w =
         match fs_write w "rotation_visualisierung.png" with
         | Some e =>
             ((tr ++ [ESaveFig "rotation_visualisierung.png" 150])%list, Raise e)
         | None =>
             ((tr ++ [ESaveFig "rotation_visualisierung.png" 150; EShow;
                      EPrint (str_mul "=" 50); EPrint erfolg_meldung;
                      EPrint (str_mul "=" 50)])%list, Ok tt)
         end.
Proof.
  destruct (run_shape numpy_str) as (tr & Hn & Hs & Hp & Hrun).
  exists tr. split; [exact Hn|]. split; [exact Hs|]. split; [|exact Hrun].
  destruct numpy_str_45 as (Hv & Hm & Hi).
  rewrite rotationsmatrix_45 in Hp.
  cbv [render fold_right render_part render_field gedreht_zeile matrix_zeile
       original_zeile titel_zeile original_vektor] in Hp.
  rewrite Hv, Hm, Hi in Hp. exact Hp.
Qed.

(** C4: the matrix built for 45 degrees sends (1, 0) to (1/sqrt 2, 1/sqrt 2),
    each component within 0.00005 of 0.7071 and shown as 0.7071 at four
    decimals.  Every run of the script, whose configuration is angle 45 and
    vector (1, 0), prints with NumPy's array text the matrix and the line
    "Gedrehter Vektor:    [0.70710678 0.70710678]", both of which contain
    0.7071; the printed arrays are in the range where NumPy keeps positional
    notation, and a console that takes every text shows exactly these
    lines. *)
Theorem rotation_um_45_grad :
  WINKEL = 45%Z /\ original_vektor = [1; 0]%Z
  /\ Np.matvec (erstelle_rotationsmatrix 45) [1; 0] = Ok [1 / sqrt 2; 1 / sqrt 2]
  /\ Rabs (1 / sqrt 2 - 0.7071) < 0.00005
  /\ format_f 4 (1 / sqrt 2) = "0.7071"
  /\ positional [1 / sqrt 2; 1 / sqrt 2]
  /\ positional (concat (erstelle_rotationsmatrix 45))
  /\ (forall w : world,
        exists rest : list string,
          prints (fst (run numpy_str w)) =
          ([str_mul "=" 50;
            "Rotationsmatrix für 45°:";
            str_mul "=" 50;
            "[[ 0.70710678 -0.70710678]
 [ 0.70710678  0.70710678]]";
            "";
            "Original-Vektor:     [1 0]";
            "Gedrehter Vektor:    [0.70710678 0.70710678]";
            ""] ++ rest)%list)
  /\ contains "0.7071" "Gedrehter Vektor:    [0.70710678 0.70710678]" = true
  /\ contains "0.7071" "[[ 0.70710678 -0.70710678]
 [ 0.70710678  0.70710678]]" = true
  /\ (forall (k : konsole) (w : world),
        (forall s : string, stdout_write k s = None) ->
        prints (fst (run_konsole k numpy_str w)) = prints (fst (run numpy_str w))).
Proof.
  pose proof inv_sqrt2_bounds as Hb.
  split; [reflexivity|]. split; [reflexivity|].
  split; [exact gedrehter_vektor_45|].
  split; [apply Rabs_def1; lra|].
  split; [now apply format_f_4_near|].
  split; [apply (positional_same (1 / sqrt 2)); [simpl; lra|];
          intros y Hy; simpl in Hy; intuition|].
  split.
  { change 45 with (IZR WINKEL). rewrite rotationsmatrix_45.
    apply (positional_same (1 / sqrt 2)); [simpl; lra|].
    intros y Hy; simpl in Hy; intuition. }
  split; [|split; [reflexivity | split; [reflexivity|]]].
  - intros w.
    destruct run_shape_numpy as (tr & _ & _ & Hp & Hrun).
    rewrite Hrun. destruct (fs_write w _); cbn [fst]; rewrite prints_app, Hp;
      eexists; reflexivity.
  - intros k w Hk. unfold run_konsole.
    rewrite replay_accepted by (apply Forall_forall; intros s _; apply Hk).
    reflexivity.
Qed.

(** ** The report texts *)

(** C9, as stated, fails on the script's own values: in the text block of
    the figure the components of the original vector are rendered as the
    integers 1 and 0, with no decimal places at all. *)
Lemma original_vektor_ohne_dezimalstellen :
  exists fs : fstring,
    matrix_text WINKEL (erstelle_rotationsmatrix (IZR WINKEL))
                [1 / sqrt 2; 1 / sqrt 2] original_vektor = Ok fs
    /\ In (FInt 1) (fields_of OriginalVec fs)
    /\ render_field (fun _ => "") (FInt 1) = "1"
    /\ ~ exists np_str : ndarray -> string, four_decimals_everywhere np_str fs.
Proof.
  eexists. split; [reflexivity|].
  split; [simpl; tauto|].
  split; [reflexivity|].
  intros [np_str H].
  specialize (H OriginalVec (FInt 1) eq_refl).
  cbv [matrix_text rbind Np.getitem1 Np.getitem2 nth_error original_vektor
       erstelle_rotationsmatrix] in H.
  assert (Hd : decimals_of (render_field np_str (FInt 1)) = Some 4%nat).
  { apply H. simpl. tauto. }
  discriminate Hd.
Qed.

(** C9, amended: in the text block of the figure the angle and the two
    components of the original vector are rendered as plain integers without
    a decimal point; each matrix entry and each component of the rotated
    vector is rendered with exactly four decimal places, the four boxed
    matrix entries in a field at least 7 characters wide.  On the console the
    angle is a plain integer and the matrix, the original vector and the
    rotated vector are handed as whole arrays to NumPy's array text, without
    a format specification. *)
Theorem bericht_formatierung (np_str : ndarray -> string) (W : Z)
    (R_ : Np.matrix) (gedrehter_vektor : Np.vector) (ov : list Z) :
  Np.shape R_ = Some (2%nat, 2%nat) ->
  length gedrehter_vektor = 2%nat ->
  length ov = 2%nat ->
  exists fs : fstring,
    matrix_text W R_ gedrehter_vektor ov = Ok fs
    /\ fields_of Angle fs = [FInt W]
    /\ fields_of OriginalVec fs = [FInt (nth 0 ov 0%Z); FInt (nth 1 ov 0%Z)]
    /\ fields_of RotatedVec fs =
       [FFloat (Np.comp gedrehter_vektor 0) (FixedF 0 4);
        FFloat (Np.comp gedrehter_vektor 1) (FixedF 0 4)]
    /\ fields_of MatrixEntry fs =
       [FFloat (Np.entry R_ 0 0) (FixedF 7 4); FFloat (Np.entry R_ 0 1) (FixedF 7 4);
        FFloat (Np.entry R_ 1 0) (FixedF 7 4); FFloat (Np.entry R_ 1 1) (FixedF 7 4);
        FFloat (Np.entry R_ 0 0) (FixedF 0 4); FFloat (Np.entry R_ 0 1) (FixedF 0 4);
        FFloat (Np.entry R_ 1 0) (FixedF 0 4); FFloat (Np.entry R_ 1 1) (FixedF 0 4)]
    /\ (forall f, In f (fields_of MatrixEntry fs ++ fields_of RotatedVec fs)%list ->
                  decimals_of (render_field np_str f) = Some 4%nat)
    /\ (forall f, In f (firstn 4 (fields_of MatrixEntry fs)) ->
                  (7 <= String.length (render_field np_str f))%nat)
    /\ (forall f, In f (fields_of Angle fs ++ fields_of OriginalVec fs)%list ->
                  decimals_of (render_field np_str f) = None)
    /\ titel_zeile W = [Lit "Rotationsmatrix für "; Repl Angle (FInt W); Lit "°:"]
    /\ (forall q f,
          In f (fields_of q (matrix_zeile R_ ++ original_zeile ov
                               ++ gedreht_zeile gedrehter_vektor)%list) ->
          whole_array f = true).
Proof.
  intros HR Hg Ho.
  destruct (shape_2x2_inv R_ HR) as (a & b & c & d & ->).
  destruct (length_2_inv gedrehter_vektor Hg) as (g0 & g1 & ->).
  destruct (length_2_inv ov Ho) as (o0 & o1 & ->).
  eexists. split; [reflexivity|].
  cbn [fields_of flat_map app Np.entry Np.comp nth firstn].
  repeat (split; [reflexivity|]).
  split; [|split; [|split; [|split; [reflexivity|]]]].
  - intros f Hf; simpl in Hf.
    repeat (destruct Hf as [<-|Hf];
            [apply decimals_of_format_spec; discriminate|]).
    contradiction.
  - intros f Hf; simpl in Hf.
    repeat (destruct Hf as [<-|Hf]; [apply length_format_spec|]).
    contradiction.
  - intros f Hf; simpl in Hf.
    repeat (destruct Hf as [<-|Hf]; [apply decimals_of_str_int|]).
    contradiction.
  - intros q f Hf. destruct q; simpl in Hf;
      repeat (destruct Hf as [<-|Hf]; [reflexivity|]); contradiction.
Qed.

Lemma bericht_formatierung_witness :
  exists fs : fstring,
    matrix_text 45 [[1; 0]; [0; 1]] [1; 0] [1; 0]%Z = Ok fs
    /\ (forall f, In f (fields_of MatrixEntry fs ++ fields_of RotatedVec fs)%list ->
                  decimals_of (render_field (fun _ => "") f) = Some 4%nat)
    /\ (forall f, In f (fields_of Angle fs ++ fields_of OriginalVec fs)%list ->
                  decimals_of (render_field (fun _ => "") f) = None).
Proof.
  destruct (bericht_formatierung (fun _ => "") 45 [[1; 0]; [0; 1]] [1; 0] [1; 0]%Z)
    as (fs & H1 & _ & _ & _ & _ & H2 & _ & H3 & _); try reflexivity.
  exists fs. auto.
Defined.

(** ** Failure of the file write *)

(** C10: when writing the image file fails, the exception is the outcome of
    the run and the exit status is 1; the write was attempted exactly once
    and is the last thing the process did: the window is not shown and the
    three closing lines, the success message among them, are not printed.
    A run whose write succeeds does exactly the same up to the write and then
    continues to the end with status 0. *)
Theorem savefig_fehler_ist_fatal (np_str : ndarray -> string) (w : world) (e : exn) :
  fs_write w "rotation_visualisierung.png" = Some e ->
  snd (run np_str w) = Raise e
  /\ exit_status (snd (run np_str w)) = 1%Z
  /\ exit_status (snd (run np_str w)) <> 0%Z
  /\ savefig_attempts (fst (run np_str w)) = 1%nat
  /\ (exists tr : list event,
        fst (run np_str w) = (tr ++ [ESaveFig "rotation_visualisierung.png" 150])%list)
  /\ ~ In EShow (fst (run np_str w))
  /\ length (prints (fst (run np_str w))) = 8%nat
  /\ forall w' : world,
       fs_write w' "rotation_visualisierung.png" = None ->
       run np_str w' =
       ((fst (run np_str w)
           ++ [EShow; EPrint (str_mul "=" 50); EPrint erfolg_meldung;
               EPrint (str_mul "=" 50)])%list, Ok tt).
Proof.
  intros Hw.
  destruct (run_shape np_str) as (tr & Hn & Hs & Hp & Hrun).
  rewrite (Hrun w), Hw; cbn [fst snd exit_status].
  split; [reflexivity|]. split; [reflexivity|]. split; [discriminate|].
  split; [rewrite savefig_attempts_app, Hn; reflexivity|].
  split; [now exists tr|].
  split.
  - intros Hin. apply in_app_or in Hin as [Hin|Hin]; [now apply Hs|].
    simpl in Hin. intuition discriminate.
  - split; [rewrite prints_app, Hp; reflexivity|].
    intros w' Hw'. rewrite (Hrun w'), Hw', <- app_assoc. reflexivity.
Qed.

Lemma savefig_fehler_ist_fatal_witness :
  let w := {| fs_write := fun _ => Some (OSError "Permission denied") |} in
  snd (run (fun _ => "") w) = Raise (OSError "Permission denied")
  /\ exit_status (snd (run (fun _ => "") w)) = 1%Z
  /\ savefig_attempts (fst (run (fun _ => "") w)) = 1%nat.
Proof.
  intros w.
  destruct (savefig_fehler_ist_fatal (fun _ => "") w (OSError "Permission denied"))
    as (H1 & H2 & _ & H3 & _); [reflexivity|].
  auto.
Defined.


(** ** Further properties of the builder *)

Lemma radians_opp (a : R) : Np.radians (- a) = - Np.radians a.
Proof. unfold Np.radians; ring. Qed.

Lemma rotationsmatrix_entries (winkel_grad : R) :
  erstelle_rotationsmatrix winkel_grad =
  [[cos (Np.radians winkel_grad); - sin (Np.radians winkel_grad)];
   [sin (Np.radians winkel_grad); cos (Np.radians winkel_grad)]].
Proof. reflexivity. Qed.

(** X1: the transpose of the matrix built for an angle is the matrix built
    for the opposite angle, and the two multiply to the identity in either
    order: turning back undoes the turn. *)
Theorem rotationsmatrix_transpose_inverse (winkel_grad : R) :
  Np.transpose (erstelle_rotationsmatrix winkel_grad)
  = erstelle_rotationsmatrix (- winkel_grad)
  /\ Np.matmul (erstelle_rotationsmatrix winkel_grad)
               (erstelle_rotationsmatrix (- winkel_grad)) = Ok Np.eye2
  /\ Np.matmul (erstelle_rotationsmatrix (- winkel_grad))
               (erstelle_rotationsmatrix winkel_grad) = Ok Np.eye2.
Proof.
  rewrite !rotationsmatrix_entries, radians_opp, cos_neg, sin_neg.
  set (t := Np.radians winkel_grad).
  pose proof (sin2_cos2' t) as H.
  split; [|split].
  - cbn [Np.transpose length seq map nth]. entrywise; ring.
  - rewrite matmul_2x2. unfold Np.eye2. entrywise; lra.
  - rewrite matmul_2x2. unfold Np.eye2. entrywise; lra.
Qed.

(** X2: rotating a 2-vector by an angle and then by the opposite angle gives
    the vector back. *)
Theorem rotation_round_trip (winkel_grad : R) (v : Np.vector) :
  length v = 2%nat ->
  exists v' : Np.vector,
    Np.matvec (erstelle_rotationsmatrix winkel_grad) v = Ok v'
    /\ Np.matvec (erstelle_rotationsmatrix (- winkel_grad)) v' = Ok v.
Proof.
  intros Hv. destruct (length_2_inv v Hv) as (x & y & ->).
  rewrite !rotationsmatrix_entries, radians_opp, cos_neg, sin_neg.
  set (t := Np.radians winkel_grad).
  pose proof (sin2_cos2' t) as H.
  rewrite matvec_2x2. eexists; split; [reflexivity|].
  rewrite matvec_2x2. entrywise.
  - replace x with ((cos t * cos t + sin t * sin t) * x) at 3 by (rewrite H; ring).
    ring.
  - replace y with ((cos t * cos t + sin t * sin t) * y) at 3 by (rewrite H; ring).
    ring.
Qed.

Lemma rotation_round_trip_witness :
  exists v' : Np.vector,
    Np.matvec (erstelle_rotationsmatrix 30) [3; 4] = Ok v'
    /\ Np.matvec (erstelle_rotationsmatrix (- 30)) v' = Ok [3; 4].
Proof. apply (rotation_round_trip 30 [3; 4]); reflexivity. Defined.

(** X3: the matrices built for two angles commute. *)
Theorem rotationsmatrix_commute (th1 th2 : R) :
  Np.matmul (erstelle_rotationsmatrix th1) (erstelle_rotationsmatrix th2)
  = Np.matmul (erstelle_rotationsmatrix th2) (erstelle_rotationsmatrix th1).
Proof.
  rewrite !rotationsmatrix_entries, !matmul_2x2. entrywise; ring.
Qed.

(** X4: rotation preserves the dot product of two 2-vectors, hence the angle
    between them. *)
Theorem rotation_preserves_dot (winkel_grad : R) (u v : Np.vector) :
  length u = 2%nat ->
  length v = 2%nat ->
  exists u' v' : Np.vector,
    Np.matvec (erstelle_rotationsmatrix winkel_grad) u = Ok u'
    /\ Np.matvec (erstelle_rotationsmatrix winkel_grad) v = Ok v'
    /\ Np.dot u' v' = Np.dot u v.
Proof.
  intros Hu Hv.
  destruct (length_2_inv u Hu) as (a & b & ->).
  destruct (length_2_inv v Hv) as (x & y & ->).
  rewrite rotationsmatrix_entries.
  set (t := Np.radians winkel_grad).
  pose proof (sin2_cos2' t) as H.
  rewrite !matvec_2x2. do 2 eexists. split; [reflexivity|]. split; [reflexivity|].
  rewrite !dot_2.
  replace ((cos t * a + - sin t * b) * (cos t * x + - sin t * y)
           + (sin t * a + cos t * b) * (sin t * x + cos t * y))
    with ((cos t * cos t + sin t * sin t) * (a * x + b * y)) by ring.
  rewrite H. ring.
Qed.

Lemma rotation_preserves_dot_witness :
  exists u' v' : Np.vector,
    Np.matvec (erstelle_rotationsmatrix 30) [1; 2] = Ok u'
    /\ Np.matvec (erstelle_rotationsmatrix 30) [3; 4] = Ok v'
    /\ Np.dot u' v' = Np.dot [1; 2] [3; 4].
Proof. apply (rotation_preserves_dot 30 [1; 2] [3; 4]); reflexivity. Defined.



(** ** Further properties of the texts *)

Lemma round_half_even_floor (y : R) :
  round_half_even y = Zfloor y \/ round_half_even y = (Zfloor y + 1)%Z.
Proof.
  unfold round_half_even.
  destruct (Rlt_dec _ _); [now left|].
  destruct (Rlt_dec _ _); [now right|].
  destruct (Z.even _); [now left | now right].
Qed.

(** X6: the rounding of the [f] presentation is to the nearest integer, and
    to the even one of the two when the value lies exactly half-way. *)
Theorem round_half_even_nearest (y : R) :
  Rabs (IZR (round_half_even y) - y) <= 1 / 2
  /\ (Rabs (IZR (round_half_even y) - y) = 1 / 2 ->
      Z.even (round_half_even y) = true).
Proof.
  pose proof (Zfloor_bound y) as [Hlo Hhi].
  unfold round_half_even.
  destruct (Rlt_dec (y - IZR (Zfloor y)) (1 / 2)) as [H1|H1].
  - split.
    + apply Rabs_le. lra.
    + intros He. rewrite Rabs_left1 in He by lra. lra.
  - destruct (Rlt_dec (1 / 2) (y - IZR (Zfloor y))) as [H2|H2].
    + rewrite plus_IZR. split.
      * apply Rabs_le. lra.
      * intros He. rewrite Rabs_pos_eq in He by lra. lra.
    + destruct (Z.even (Zfloor y)) eqn:Hev.
      * split; [apply Rabs_le; lra | now intros _].
      * rewrite plus_IZR. split; [apply Rabs_le; lra|].
        intros _. rewrite Z.even_add, Hev. reflexivity.
Qed.

(** Rounding keeps a value between the integers that enclose it. *)
Lemma round_half_even_between (y : R) (a b : Z) :
  IZR a <= y <= IZR b -> (a <= round_half_even y <= b)%Z.
Proof.
  intros [Ha Hb].
  pose proof (Zfloor_bound y) as [Hlo Hhi].
  assert (Hfa : (a <= Zfloor y)%Z) by now apply Zfloor_lub.
  assert (Hfb : (Zfloor y <= b)%Z) by (apply le_IZR; lra).
  destruct (Z.eq_dec (Zfloor y) b) as [He|Hne].
  - unfold round_half_even. rewrite He.
    destruct (Rlt_dec (y - IZR b) (1 / 2)); [lia | lra].
  - destruct (round_half_even_floor y) as [-> | ->]; lia.
Qed.

Lemma length_small_uint (q : Z) :
  (0 <= q <= 1)%Z ->
  String.length (NilZero.string_of_uint (N.to_uint (Z.to_N q))) = 1%nat.
Proof.
  intros Hq. assert (Hq' : q = 0%Z \/ q = 1%Z) by lia.
  destruct Hq' as [-> | ->]; reflexivity.
Qed.

(** A value between -1 and 1 takes exactly 7 characters in a [7.4f] field. *)
Lemma length_format_7_4 (x : R) :
  -1 <= x <= 1 -> String.length (format_spec (FixedF 7 4) x) = 7%nat.
Proof.
  intros Hx. unfold format_spec, pad_left, format_f; cbn [width precision].
  set (n := round_half_even (Rabs x * 10 ^ 4)).
  assert (Hn : (0 <= n <= 10000)%Z).
  { apply round_half_even_between.
    assert (0 <= Rabs x <= 1) by (split; [apply Rabs_pos | apply Rabs_le; lra]).
    simpl. lra. }
  assert (Hq : (0 <= n / 10 ^ Z.of_nat 4 <= 1)%Z).
  { change (10 ^ Z.of_nat 4)%Z with 10000%Z. split.
    - apply Z.div_pos; lia.
    - apply Z.div_le_upper_bound; lia. }
  rewrite !length_append, length_str_mul_space, (length_small_uint _ Hq).
  cbn [Nat.eqb]. rewrite !length_append, length_digits_fixed.
  destruct (Rlt_dec x 0); reflexivity.
Qed.

(** X7: whatever the angle, every entry of the built matrix lies between -1
    and 1 and fills exactly 7 characters of its [7.4f] field, so the two rows
    of the boxed matrix in the figure have the same width. *)
Theorem rotationsmatrix_box_width (winkel_grad : R) :
  Forall (Forall (fun x => -1 <= x <= 1
                           /\ String.length (format_spec (FixedF 7 4) x) = 7%nat))
         (erstelle_rotationsmatrix winkel_grad).
Proof.
  unfold erstelle_rotationsmatrix; cbv zeta.
  pose proof (COS_bound (Np.radians winkel_grad)) as Hc.
  pose proof (SIN_bound (Np.radians winkel_grad)) as Hs.
  assert (H : forall x, -1 <= x <= 1 ->
                -1 <= x <= 1
                /\ String.length (format_spec (FixedF 7 4) x) = 7%nat)
    by (intros x Hx; split; [exact Hx | now apply length_format_7_4]).
  repeat first [apply Forall_nil | apply Forall_cons]; apply H; lra.
Qed.

(** X8: the legend label of the rotated vector shows its first two
    components with exactly three decimal places, one fewer than the text
    block; a vector with fewer than two components raises [IndexError]. *)
Theorem gedreht_label_outcome (np_str : ndarray -> string) (W : Z) (gv : Np.vector) :
  match gedreht_label W gv with
  | Ok fs =>
      (2 <= length gv)%nat
      /\ fields_of RotatedVec fs =
         [FFloat (Np.comp gv 0) (FixedF 0 3); FFloat (Np.comp gv 1) (FixedF 0 3)]
      /\ Forall (fun f => decimals_of (render_field np_str f) = Some 3%nat)
                (fields_of RotatedVec fs)
  | Raise (IndexError _) => (length gv < 2)%nat
  | Raise _ => False
  end.
Proof.
  destruct gv as [|g0 [|g1 gv]]; cbn; try lia.
  split; [lia|]. split; [reflexivity|].
  repeat first [apply Forall_nil | apply Forall_cons];
    apply decimals_of_format_spec; discriminate.
Qed.


(** ** The sampled curves *)

Import Figur.


Lemma length_linspace (a b : R) (num : nat) : length (Np.linspace a b num) = num.
Proof. unfold Np.linspace. now rewrite length_map, length_seq. Qed.

Lemma nth_linspace (a b d : R) (num i : nat) :
  (i < num)%nat ->
  nth i (Np.linspace a b num) d =
  if Nat.ltb 1 num && Nat.eqb i (num - 1) then b
  else INR i * ((b - a) / INR (num - 1)) + a.
Proof.
  intros Hi. unfold Np.linspace; cbv zeta.
  set (f := fun i : nat => if Nat.ltb 1 num && Nat.eqb i (num - 1) then b
                           else INR i * ((b - a) / INR (num - 1)) + a).
  change (nth i (map f (seq 0 num)) d = f i).
  rewrite (nth_indep _ d (f 0%nat)) by now rewrite length_map, length_seq.
  now rewrite map_nth, seq_nth.
Qed.

(** The samples as an affine function of the index. *)
Lemma nth_linspace_affine (a b d : R) (num i : nat) :
  (2 <= num)%nat -> (i < num)%nat ->
  nth i (Np.linspace a b num) d = a + INR i * (b - a) / INR (num - 1).
Proof.
  intros Hn Hi. rewrite nth_linspace by exact Hi.
  assert (Hd : INR (num - 1) <> 0) by (apply not_0_INR; lia).
  destruct (Nat.ltb_spec 1 num) as [_|]; [|lia].
  destruct (Nat.eqb_spec i (num - 1)) as [->|_]; cbn [andb]; field; exact Hd.
Qed.

Lemma linspace_first (a b d : R) (num : nat) :
  (1 <= num)%nat -> nth 0 (Np.linspace a b num) d = a.
Proof.
  intros Hn. rewrite nth_linspace by lia.
  destruct (Nat.ltb 1 num && Nat.eqb 0 (num - 1)) eqn:E.
  - apply andb_true_iff in E as [E1 E2].
    apply Nat.ltb_lt in E1. apply Nat.eqb_eq in E2. lia.
  - simpl. ring.
Qed.

Lemma linspace_last (a b d : R) (num : nat) :
  (2 <= num)%nat -> nth (num - 1) (Np.linspace a b num) d = b.
Proof.
  intros Hn. rewrite nth_linspace by lia.
  destruct (Nat.ltb_spec 1 num) as [_|]; [|lia].
  now rewrite Nat.eqb_refl.
Qed.

Lemma linspace_between_aux (start stop : R) (num : nat) :
  Forall (fun t => Rmin start stop <= t <= Rmax start stop)
         (Np.linspace start stop num).
Proof.
  apply Forall_forall. intros t Ht.
  apply (In_nth _ _ 0) in Ht as (i & Hi & <-).
  rewrite length_linspace in Hi.
  pose proof (Rmin_l start stop). pose proof (Rmin_r start stop).
  pose proof (Rmax_l start stop). pose proof (Rmax_r start stop).
  destruct (Nat.le_gt_cases 2 num) as [Hn|Hn].
  - rewrite nth_linspace_affine by assumption.
    assert (Hd : 0 < INR (num - 1)) by (apply lt_0_INR; lia).
    assert (Hi0 : 0 <= INR i) by apply pos_INR.
    assert (Hi1 : INR i <= INR (num - 1)) by (apply le_INR; lia).
    set (s := INR i / INR (num - 1)).
    assert (Hs : 0 <= s <= 1).
    { unfold s. split.
      - apply Rmult_le_pos; [lra | left; now apply Rinv_0_lt_compat].
      - apply Rmult_le_reg_r with (INR (num - 1)); [exact Hd|].
        unfold Rdiv. rewrite Rmult_assoc, Rinv_l by lra. lra. }
    replace (start + INR i * (stop - start) / INR (num - 1))
      with (start + s * (stop - start)) by (unfold s; field; lra).
    destruct (Rle_lt_dec start stop); split; nra.
  - assert (num = 1%nat) by lia; subst num.
    assert (i = 0%nat) by lia; subst i.
    unfold Np.linspace; simpl.
    replace (0 * ((stop - start) / 0) + start) with start by ring. lra.
Qed.

Lemma punkte_map (f g : R -> R) (ts : Np.vector) :
  punkte (map f ts, map g ts) = map (fun t => (f t, g t)) ts.
Proof.
  unfold punkte; cbn [fst snd].
  induction ts as [|t ts IH]; simpl; [reflexivity | now rewrite IH].
Qed.

(** X12: the reference circle is drawn through 100 points, each at distance
    1 from the origin; it starts at (1, 0) and ends there, so the curve is
    closed. *)
Theorem einheitskreis_punkte :
  length (punkte einheitskreis) = 100%nat
  /\ Forall (fun p => fst p * fst p + snd p * snd p = 1) (punkte einheitskreis)
  /\ nth 0 (punkte einheitskreis) (0, 0) = (1, 0)
  /\ nth 99 (punkte einheitskreis) (0, 0) = (1, 0).
Proof.
  unfold einheitskreis. rewrite punkte_map.
  split; [now rewrite length_map; unfold theta; rewrite length_linspace|].
  split; [|split].
  - apply Forall_forall. intros p Hp.
    apply in_map_iff in Hp as (t & <- & _). cbn [fst snd]. apply sin2_cos2'.
  - rewrite (nth_indep _ (0, 0) ((fun t => (cos t, sin t)) 0))
      by (rewrite length_map; unfold theta; rewrite length_linspace; lia).
    rewrite (map_nth (fun t => (cos t, sin t))).
    unfold theta. rewrite linspace_first by lia. now rewrite cos_0, sin_0.
  - rewrite (nth_indep _ (0, 0) ((fun t => (cos t, sin t)) 0))
      by (rewrite length_map; unfold theta; rewrite length_linspace; lia).
    rewrite (map_nth (fun t => (cos t, sin t))).
    pose proof (linspace_last 0 (2 * PI) 0 100) as Hl.
    change (100 - 1)%nat with 99%nat in Hl.
    unfold theta. rewrite Hl by lia. now rewrite cos_2PI, sin_2PI.
Qed.

(** X13: for every angle the arc is drawn through 30 points, each at
    distance [bogen_radius] from the origin; it starts on the original vector,
    at [bogen_radius] times (1, 0), and ends on the rotated vector, at
    [bogen_radius] times the image of (1, 0) under the built matrix. *)
Theorem rotationsbogen_punkte (W : Z) :
  length (punkte (rotationsbogen W)) = 30%nat
  /\ Forall (fun p => fst p * fst p + snd p * snd p = bogen_radius * bogen_radius)
            (punkte (rotationsbogen W))
  /\ nth 0 (punkte (rotationsbogen W)) (0, 0)
     = (bogen_radius * IZR (nth 0 original_vektor 0%Z),
        bogen_radius * IZR (nth 1 original_vektor 0%Z))
  /\ (exists gx gy : R,
        Np.matvec (erstelle_rotationsmatrix (IZR W)) (Np.astype_float original_vektor)
        = Ok [gx; gy]
        /\ nth 29 (punkte (rotationsbogen W)) (0, 0)
           = (bogen_radius * gx, bogen_radius * gy))
  /\ Forall (fun t => Rmin 0 (Np.radians (IZR W)) <= t <= Rmax 0 (Np.radians (IZR W)))
            (winkel_bogen W).
Proof.
  unfold rotationsbogen. rewrite punkte_map.
  assert (Hlen : length (winkel_bogen W) = 30%nat)
    by (unfold winkel_bogen; apply length_linspace).
  split; [now rewrite length_map|]. split; [|split; [|split]];
    [| | | unfold winkel_bogen; apply linspace_between_aux].
  - apply Forall_forall. intros p Hp.
    apply in_map_iff in Hp as (t & <- & _). cbn [fst snd].
    pose proof (sin2_cos2' t) as H.
    replace (bogen_radius * cos t * (bogen_radius * cos t)
             + bogen_radius * sin t * (bogen_radius * sin t))
      with (bogen_radius * bogen_radius * (cos t * cos t + sin t * sin t)) by ring.
    rewrite H. ring.
  - rewrite (nth_indep _ (0, 0)
               ((fun t => (bogen_radius * cos t, bogen_radius * sin t)) 0))
      by (rewrite length_map; lia).
    rewrite (map_nth (fun t => (bogen_radius * cos t, bogen_radius * sin t))).
    unfold winkel_bogen. rewrite linspace_first by lia. now rewrite cos_0, sin_0.
  - exists (cos (Np.radians (IZR W))), (sin (Np.radians (IZR W))). split.
    + rewrite rotationsmatrix_entries. cbn [Np.astype_float original_vektor map].
      rewrite matvec_2x2. entrywise; ring.
    + rewrite (nth_indep _ (0, 0)
                 ((fun t => (bogen_radius * cos t, bogen_radius * sin t)) 0))
        by (rewrite length_map; lia).
      rewrite (map_nth (fun t => (bogen_radius * cos t, bogen_radius * sin t))).
      pose proof (linspace_last 0 (Np.radians (IZR W)) 0 30) as Hl.
      change (30 - 1)%nat with 29%nat in Hl.
      unfold winkel_bogen. now rewrite Hl by lia.
Qed.

(** X14: every sample of [np.linspace] lies between the two end points,
    whichever of them is the larger. *)
Theorem linspace_between (start stop : R) (num : nat) :
  Forall (fun t => Rmin start stop <= t <= Rmax start stop)
         (Np.linspace start stop num).
Proof. apply linspace_between_aux. Qed.

Lemma im_achsenbereich_small (x y : R) :
  -1 <= x <= 1 -> -1 <= y <= 1 -> im_achsenbereich (x, y).
Proof. unfold im_achsenbereich, xlim, ylim; cbn [fst snd]. lra. Qed.

(** X15: nothing that is drawn is clipped: for every angle the points of
    the reference circle and of the arc, the tip of the original vector and
    the tip of the rotated vector all lie within the axis limits. *)
Theorem alles_im_achsenbereich (W : Z) :
  Forall im_achsenbereich (punkte einheitskreis)
  /\ Forall im_achsenbereich (punkte (rotationsbogen W))
  /\ im_achsenbereich (IZR (nth 0 original_vektor 0%Z), IZR (nth 1 original_vektor 0%Z))
  /\ exists gx gy : R,
       Np.matvec (erstelle_rotationsmatrix (IZR W)) (Np.astype_float original_vektor)
       = Ok [gx; gy]
       /\ im_achsenbereich (gx, gy).
Proof.
  split; [|split; [|split]].
  - unfold einheitskreis. rewrite punkte_map.
    apply Forall_forall. intros p Hp.
    apply in_map_iff in Hp as (t & <- & _).
    apply im_achsenbereich_small; [apply COS_bound | apply SIN_bound].
  - unfold rotationsbogen. rewrite punkte_map.
    apply Forall_forall. intros p Hp.
    apply in_map_iff in Hp as (t & <- & _).
    pose proof (COS_bound t). pose proof (SIN_bound t).
    apply im_achsenbereich_small; unfold bogen_radius; lra.
  - apply im_achsenbereich_small; cbn [original_vektor nth]; lra.
  - exists (cos (Np.radians (IZR W))), (sin (Np.radians (IZR W))). split.
    + rewrite rotationsmatrix_entries. cbn [Np.astype_float original_vektor map].
      rewrite matvec_2x2. entrywise; ring.
    + apply im_achsenbereich_small; [apply COS_bound | apply SIN_bound].
Qed.


(** ** The texts on short or oversized operands, and in the run *)

(** X16: the legend label of the original vector shows its first two
    components as plain integers, without a decimal point; a vector with
    fewer than two components raises [IndexError]. *)
Theorem original_label_outcome (np_str : ndarray -> string) (ov : list Z) :
  match original_label ov with
  | Ok fs =>
      (2 <= length ov)%nat
      /\ fields_of OriginalVec fs = [FInt (nth 0 ov 0%Z); FInt (nth 1 ov 0%Z)]
      /\ Forall (fun f => decimals_of (render_field np_str f) = None)
                (fields_of OriginalVec fs)
  | Raise (IndexError _) => (length ov < 2)%nat
  | Raise _ => False
  end.
Proof.
  destruct ov as [|o0 [|o1 ov]]; cbn; try lia.
  split; [lia|]. split; [reflexivity|].
  repeat first [apply Forall_nil | apply Forall_cons]; apply decimals_of_str_int.
Qed.

(** X17: the text block is produced exactly when the matrix has two rows
    of at least two entries and both vectors have at least two components;
    it then reads only the upper left 2x2 part of the matrix and the first
    two components of the vectors.  Otherwise it raises [IndexError]. *)
Theorem matrix_text_outcome (W : Z) (R_ : Np.matrix) (gv : Np.vector) (ov : list Z) :
  let in_range :=
    (2 <= length R_)%nat /\ (2 <= length (nth 0 R_ []))%nat
    /\ (2 <= length (nth 1 R_ []))%nat
    /\ (2 <= length gv)%nat /\ (2 <= length ov)%nat in
  match matrix_text W R_ gv ov with
  | Ok fs =>
      in_range
      /\ Ok fs = matrix_text W
                   [[Np.entry R_ 0 0; Np.entry R_ 0 1];
                    [Np.entry R_ 1 0; Np.entry R_ 1 1]]
                   [Np.comp gv 0; Np.comp gv 1]
                   [nth 0 ov 0%Z; nth 1 ov 0%Z]
  | Raise (IndexError _) => ~ in_range
  | Raise _ => False
  end.
Proof.
  cbv zeta. unfold matrix_text.
  destruct R_ as [|r0 [|r1 R_]];
    [cbn; lia | destruct r0 as [|a [|b r0]]; cbn; lia |].
  destruct r0 as [|a [|b r0]]; [cbn; lia | cbn; lia |].
  destruct r1 as [|c [|d r1]]; [cbn; lia | cbn; lia |].
  destruct gv as [|g0 [|g1 gv]]; [cbn; lia | destruct ov as [|o0 ov]; cbn; lia |].
  destruct ov as [|o0 [|o1 ov]]; [cbn; lia | cbn; lia |].
  cbn. split; [lia | reflexivity].
Qed.





(** ** Runs in front of a console *)

Lemma replay_outcome (k : konsole) (tr : list event) (r : result unit) :
  match snd (replay k tr r) with
  | Ok u => r = Ok u /\ Forall (fun s => stdout_write k s = None) (prints tr)
  | Raise e => r = Raise e
               \/ exists s, In s (prints tr) /\ stdout_write k s = Some e
  end.
Proof.
  induction tr as [|ev tr IH].
  - cbn. destruct r; [split; [reflexivity | constructor] | now left].
  - assert (Hstep : forall done r',
              replay k tr r = (done, r') ->
              match r' with
              | Ok u => r = Ok u /\ Forall (fun s => stdout_write k s = None) (prints tr)
              | Raise e => r = Raise e
                           \/ exists s, In s (prints tr) /\ stdout_write k s = Some e
              end)
      by (intros done r' E; rewrite E in IH; exact IH).
    destruct ev; cbn [replay].
    + destruct (stdout_write k s) as [e|] eqn:Es.
      * cbn. right. exists s. split; [now left | exact Es].
      * destruct (replay k tr r) as [done r'] eqn:E. cbn [snd].
        specialize (Hstep done r' eq_refl).
        change (prints (EPrint s :: tr)) with (s :: prints tr).
        destruct r' as [u|e].
        -- destruct Hstep as [H1 H2]. split; [exact H1 | now constructor].
        -- destruct Hstep as [H1 | (s' & H1 & H2)]; [now left|].
           right. exists s'. split; [now right | exact H2].
    + destruct (replay k tr r) as [done r'] eqn:E. cbn [snd].
      exact (Hstep done r' eq_refl).
    + destruct (replay k tr r) as [done r'] eqn:E. cbn [snd].
      exact (Hstep done r' eq_refl).
    + destruct (replay k tr r) as [done r'] eqn:E. cbn [snd].
      exact (Hstep done r' eq_refl).
Qed.

(** X9: a run raises only because the console rejects one of the texts
    it is asked to print or because the write of the image file fails, and
    then with that exception; it completes only when the console accepts
    every text and the write succeeds.  No index access and no matrix
    product of the script fails. *)
Theorem run_outcome (np_str : ndarray -> string) (k : konsole) (w : world) :
  match snd (run_konsole k np_str w) with
  | Ok _ =>
      fs_write w "rotation_visualisierung.png" = None
      /\ Forall (fun s => stdout_write k s = None) (prints (fst (run np_str w)))
  | Raise e =>
      fs_write w "rotation_visualisierung.png" = Some e
      \/ exists s, In s (prints (fst (run np_str w))) /\ stdout_write k s = Some e
  end.
Proof.
  unfold run_konsole.
  pose proof (replay_outcome k (fst (run np_str w)) (snd (run np_str w))) as H.
  destruct (run_shape np_str) as (tr & _ & _ & _ & Hrun).
  destruct (snd (replay k _ _)) as [u|e].
  - destruct H as [H1 H2]. split; [|exact H2].
    rewrite (Hrun w) in H1. destruct (fs_write w _); [discriminate | reflexivity].
  - destruct H as [H1 | H1]; [left | now right].
    rewrite (Hrun w) in H1. destruct (fs_write w _); [now injection H1 as -> | discriminate].
Qed.

Lemma replay_app (k : konsole) (tr1 tr2 : list event) (r : result unit) :
  Forall (fun s => stdout_write k s = None) (prints tr1) ->
  replay k (tr1 ++ tr2)%list r =
  ((tr1 ++ fst (replay k tr2 r))%list, snd (replay k tr2 r)).
Proof.
  induction tr1 as [|ev tr1 IH]; intros H.
  - cbn [app]. now destruct (replay k tr2 r).
  - destruct ev; cbn [app replay]; cbn [prints flat_map app] in H;
      fold (prints tr1) in H.
    + inversion H as [|? ? Hs Ht]; subst. rewrite Hs, (IH Ht). reflexivity.
    + rewrite (IH H). reflexivity.
    + rewrite (IH H). reflexivity.
    + rewrite (IH H). reflexivity.
Qed.

(** X10: when the console accepts every text and the write of the image
    file succeeds, the run completes with exit status 0; the file is written
    exactly once, at 150 dpi, before the window is shown, and the run ends
    with the three closing texts.  There are eleven print calls, and with
    NumPy's array text, whose matrix takes two lines, twelve console lines. *)
Theorem run_success (k : konsole) (w : world) :
  fs_write w "rotation_visualisierung.png" = None ->
  (forall s : string, stdout_write k s = None) ->
  snd (run_konsole k numpy_str w) = Ok tt
  /\ exit_status (snd (run_konsole k numpy_str w)) = 0%Z
  /\ savefig_attempts (fst (run_konsole k numpy_str w)) = 1%nat
  /\ (exists tr : list event,
        fst (run_konsole k numpy_str w) =
        (tr ++ [ESaveFig "rotation_visualisierung.png" 150; EShow;
                EPrint (str_mul "=" 50); EPrint erfolg_meldung;
                EPrint (str_mul "=" 50)])%list
        /\ ~ In EShow tr)
  /\ length (prints (fst (run_konsole k numpy_str w))) = 11%nat
  /\ console_lines (fst (run_konsole k numpy_str w)) = 12%nat.
Proof.
  intros Hw Hk.
  destruct run_shape_numpy as (tr & Hn & Hs & Hp & Hrun).
  unfold run_konsole.
  rewrite replay_accepted by (apply Forall_forall; intros s _; apply Hk).
  rewrite (Hrun w), Hw; cbn [fst snd exit_status].
  split; [reflexivity|]. split; [reflexivity|].
  split; [rewrite savefig_attempts_app, Hn; reflexivity|].
  split; [exists tr; now split|].
  split; [rewrite prints_app, Hp; reflexivity|].
  unfold console_lines. rewrite prints_app, Hp. reflexivity.
Qed.

Lemma run_success_witness :
  let k := {| stdout_write := fun _ => None |} in
  let w := {| fs_write := fun _ => None |} in
  snd (run_konsole k numpy_str w) = Ok tt
  /\ exit_status (snd (run_konsole k numpy_str w)) = 0%Z
  /\ console_lines (fst (run_konsole k numpy_str w)) = 12%nat.
Proof.
  intros k w.
  destruct (run_success k w) as (H1 & H2 & _ & _ & _ & H3);
    [reflexivity | reflexivity |].
  auto.
Defined.

(** X19: in front of a console that cannot take the success message with
    its check mark, but takes the other texts, a run whose write succeeds
    still ends in the console's exception with exit status 1: the image is
    written and the window shown, the first closing rule is printed, and the
    run stops at the success message. *)
Theorem haken_abgelehnt (k : konsole) (w : world) (e : exn) :
  fs_write w "rotation_visualisierung.png" = None ->
  stdout_write k erfolg_meldung = Some e ->
  (forall s : string, s <> erfolg_meldung -> stdout_write k s = None) ->
  snd (run_konsole k numpy_str w) = Raise e
  /\ exit_status (snd (run_konsole k numpy_str w)) = 1%Z
  /\ savefig_attempts (fst (run_konsole k numpy_str w)) = 1%nat
  /\ exists tr : list event,
       fst (run_konsole k numpy_str w) =
       (tr ++ [ESaveFig "rotation_visualisierung.png" 150; EShow;
               EPrint (str_mul "=" 50)])%list.
Proof.
  intros Hw He Hk.
  destruct run_shape_numpy as (tr & Hn & Hs & Hp & Hrun).
  assert (Hrule : stdout_write k (str_mul "=" 50) = None)
    by (apply Hk; intros H; cbv in H; discriminate H).
  assert (Htr : Forall (fun s => stdout_write k s = None) (prints tr)).
  { rewrite Hp. repeat first [apply Forall_nil | apply Forall_cons];
      apply Hk; intros H; cbv in H; discriminate H. }
  unfold run_konsole. rewrite (Hrun w), Hw; cbn [fst snd].
  rewrite (replay_app k tr _ _ Htr).
  cbn [replay]. rewrite Hrule, He. cbn [fst snd exit_status].
  split; [reflexivity|]. split; [reflexivity|].
  split; [rewrite savefig_attempts_app, Hn; reflexivity|].
  now exists tr.
Qed.

Lemma haken_abgelehnt_witness :
  let k := {| stdout_write := fun s =>
                if String.eqb s erfolg_meldung
                then Some (ValueError "UnicodeEncodeError") else None |} in
  let w := {| fs_write := fun _ => None |} in
  snd (run_konsole k numpy_str w) = Raise (ValueError "UnicodeEncodeError")
  /\ exit_status (snd (run_konsole k numpy_str w)) = 1%Z.
Proof.
  intros k w.
  destruct (haken_abgelehnt k w (ValueError "UnicodeEncodeError"))
    as (H1 & H2 & _); [reflexivity | reflexivity | |auto].
  intros s Hs. cbn. destruct (String.eqb_spec s erfolg_meldung);
    [contradiction | reflexivity].
Defined.

(** ** The builder with the binary64 conversion *)


Lemma PI_bounds : 3.1415926535897932 < PI < 3.1415926535897933.
Proof.
  pose proof (PI_2_3_7_ineq 9) as [Hlo Hhi].
  unfold PI_2_3_7_tg, tg_alt, Ratan_seq in Hlo, Hhi.
  cbn [sum_f_R0 Nat.mul Nat.add] in Hlo, Hhi.
  repeat rewrite INR_IZR_INZ in Hlo.
  repeat rewrite INR_IZR_INZ in Hhi.
  cbn [Z.of_nat Pos.of_succ_nat Pos.succ] in Hlo, Hhi.
  split; lra.
Qed.

Lemma ln2_pos : 0 < ln 2.
Proof. pose proof ln_lt_2. lra. Qed.

Lemma powerRZ_2_exp (k : Z) : powerRZ 2 k = exp (IZR k * ln 2).
Proof. rewrite powerRZ_Rpower by lra. reflexivity. Qed.

Lemma exp_le (x y : R) : x <= y -> exp x <= exp y.
Proof.
  intros [H | ->]; [left; now apply exp_increasing | right; reflexivity].
Qed.

(** The binary exponent of a positive real. *)
Lemma log2_floor_bounds (x : R) :
  0 < x ->
  powerRZ 2 (Zfloor (ln x / ln 2)) <= x < powerRZ 2 (Zfloor (ln x / ln 2) + 1).
Proof.
  intros Hx. pose proof ln2_pos as H2.
  pose proof (Zfloor_bound (ln x / ln 2)) as [Hlo Hhi].
  set (k := Zfloor (ln x / ln 2)) in *.
  assert (Hlo' : IZR k * ln 2 <= ln x).
  { apply Rmult_le_reg_r with (/ ln 2); [now apply Rinv_0_lt_compat|].
    rewrite Rmult_assoc, Rinv_r by lra. unfold Rdiv in Hlo. lra. }
  assert (Hhi' : ln x < IZR (k + 1) * ln 2).
  { rewrite plus_IZR.
    apply Rmult_lt_reg_r with (/ ln 2); [now apply Rinv_0_lt_compat|].
    rewrite Rmult_assoc, Rinv_r by lra. unfold Rdiv in Hhi. lra. }
  rewrite !powerRZ_2_exp. pose proof (exp_ln x Hx) as E. split.
  - apply Rle_trans with (exp (ln x)); [now apply exp_le | lra].
  - apply Rle_lt_trans with (exp (ln x)); [lra | now apply exp_increasing].
Qed.

Lemma log2_floor_eq (x : R) (k : Z) :
  powerRZ 2 k <= x < powerRZ 2 (k + 1) -> Zfloor (ln x / ln 2) = k.
Proof.
  intros [Hlo Hhi]. pose proof ln2_pos as H2.
  assert (Hx : 0 < x) by (pose proof (powerRZ_lt 2 k); lra).
  apply Zfloor_eq.
  rewrite !powerRZ_2_exp in *.
  assert (H1 : IZR k * ln 2 <= ln x).
  { destruct Hlo as [Hlo | Hlo].
    - left. rewrite <- (ln_exp (IZR k * ln 2)). apply ln_increasing; [apply exp_pos | exact Hlo].
    - right. now rewrite <- Hlo, ln_exp. }
  assert (H3 : ln x < IZR (k + 1) * ln 2).
  { rewrite <- (ln_exp (IZR (k + 1) * ln 2)). now apply ln_increasing. }
  rewrite plus_IZR in H3. split.
  - apply Rmult_le_reg_r with (ln 2); [exact H2|].
    unfold Rdiv. rewrite Rmult_assoc, Rinv_l by lra. lra.
  - apply Rmult_lt_reg_r with (ln 2); [exact H2|].
    unfold Rdiv. rewrite Rmult_assoc, Rinv_l by lra. lra.
Qed.

Lemma round_half_even_error (y : R) : Rabs (IZR (Py.round_half_even y) - y) <= 1 / 2.
Proof.
  pose proof (Zfloor_bound y) as [Hlo Hhi].
  unfold Py.round_half_even.
  destruct (Rlt_dec (y - IZR (Zfloor y)) (1 / 2)) as [H1|H1];
    [apply Rabs_le; lra|].
  destruct (Rlt_dec (1 / 2) (y - IZR (Zfloor y))) as [H2|H2];
    [rewrite plus_IZR; apply Rabs_le; lra|].
  destruct (Z.even (Zfloor y)); [|rewrite plus_IZR]; apply Rabs_le; lra.
Qed.

(** Rounding to binary64 moves a value by at most 2^-53 of its magnitude. *)
Lemma round_error (x : R) : Rabs (F64.round x - x) <= Rabs x * powerRZ 2 (-53).
Proof.
  unfold F64.round. destruct (Req_dec_T x 0) as [->|Hx].
  - rewrite Rminus_0_r, Rabs_R0. lra.
  - set (e := F64.ulp_exp x).
    assert (Hax : 0 < Rabs x) by now apply Rabs_pos_lt.
    pose proof (log2_floor_bounds (Rabs x) Hax) as [Hlo _].
    assert (Hk : Zfloor (ln (Rabs x) / ln 2) = (e + 52)%Z) by (unfold e, F64.ulp_exp; lia).
    rewrite Hk in Hlo.
    pose proof (powerRZ_lt 2 e ltac:(lra)) as Hpe.
    pose proof (round_half_even_error (x * powerRZ 2 (- e))) as Hr.
    set (n := Py.round_half_even (x * powerRZ 2 (- e))) in *.
    assert (Hinv : powerRZ 2 (- e) * powerRZ 2 e = 1)
      by (rewrite <- powerRZ_add by lra; replace (- e + e)%Z with 0%Z by lia; reflexivity).
    replace (IZR n * powerRZ 2 e - x)
      with ((IZR n - x * powerRZ 2 (- e)) * powerRZ 2 e)
      by (rewrite Rmult_minus_distr_r, Rmult_assoc, Hinv; ring).
    rewrite Rabs_mult, (Rabs_pos_eq (powerRZ 2 e)) by lra.
    apply Rle_trans with (1 / 2 * powerRZ 2 e).
    + apply Rmult_le_compat_r; lra.
    + apply Rle_trans with (powerRZ 2 (e + 52) * powerRZ 2 (- 53)).
      * rewrite <- powerRZ_add by lra.
        replace (e + 52 + - 53)%Z with (e + - 1)%Z by lia.
        rewrite powerRZ_add by lra. simpl. lra.
      * apply Rmult_le_compat_r; [left; apply powerRZ_lt; lra | exact Hlo].
Qed.

(** Evaluation of the rounding at a value whose binade and nearest
    significand are known. *)
Lemma round_eval (x : R) (k n : Z) :
  powerRZ 2 k <= Rabs x < powerRZ 2 (k + 1) ->
  IZR n - 1 / 2 < x * powerRZ 2 (52 - k) < IZR n + 1 / 2 ->
  F64.round x = IZR n * powerRZ 2 (k - 52).
Proof.
  intros Hk Hn. unfold F64.round.
  assert (Hx : x <> 0).
  { intros ->. rewrite Rabs_R0 in Hk. pose proof (powerRZ_lt 2 k). lra. }
  destruct (Req_dec_T x 0) as [|_]; [contradiction|].
  unfold F64.ulp_exp. rewrite (log2_floor_eq _ k Hk).
  replace (- (k - 52))%Z with (52 - k)%Z by lia.
  now rewrite (round_half_even_near _ n Hn).
Qed.

(** The constant is what the C compiler makes of [NPY_PI / 180.0]: pi
    rounded to binary64, divided by 180, rounded again. *)
Lemma deg2rad_rounded : F64.deg2rad = F64.round (F64.round PI / 180).
Proof.
  pose proof PI_bounds as HPI.
  assert (Hpi : F64.round PI = 884279719003555 / 2 ^ 48).
  { rewrite (round_eval _ 1 7074237752028440).
    - simpl. field.
    - rewrite Rabs_pos_eq by lra. simpl. lra.
    - simpl. lra. }
  rewrite Hpi.
  rewrite (round_eval _ (-6) 5030569068109113).
  - unfold F64.deg2rad. reflexivity.
  - rewrite Rabs_pos_eq by (simpl; lra). simpl. lra.
  - simpl. lra.
Qed.

Lemma deg2rad_bounds :
  0 < F64.deg2rad
  /\ F64.deg2rad * powerRZ 2 (-53) <= 194 / 10 ^ 20
  /\ Rabs (F64.deg2rad - PI / 180) <= 65 / 10 ^ 20.
Proof.
  pose proof PI_bounds as [Hlo Hhi].
  unfold F64.deg2rad. simpl powerRZ.
  split; [lra|]. split; [lra|]. apply Rabs_le. lra.
Qed.

(** The conversion differs from the exact one by at most [kappa] per
    degree. *)
Lemma radians_error (x : R) :
  Rabs (F64.radians x - Np.radians x) <= F64.kappa * Rabs x.
Proof.
  destruct deg2rad_bounds as (Hc & Hu & Hd).
  unfold F64.radians, Np.radians.
  pose proof (round_error (x * F64.deg2rad)) as Hr.
  rewrite Rabs_mult, (Rabs_pos_eq F64.deg2rad) in Hr by lra.
  replace (F64.round (x * F64.deg2rad) - x * (PI / 180))
    with ((F64.round (x * F64.deg2rad) - x * F64.deg2rad)
          + x * (F64.deg2rad - PI / 180)) by ring.
  eapply Rle_trans; [apply Rabs_triang|].
  rewrite (Rabs_mult x).
  pose proof (Rabs_pos x) as Hx.
  unfold F64.kappa.
  assert (H1 : Rabs x * F64.deg2rad * powerRZ 2 (-53) <= Rabs x * (194 / 10 ^ 20))
    by (rewrite Rmult_assoc; apply Rmult_le_compat_l; lra).
  assert (H2 : Rabs x * Rabs (F64.deg2rad - PI / 180) <= Rabs x * (65 / 10 ^ 20))
    by (apply Rmult_le_compat_l; lra).
  lra.
Qed.

Lemma Rabs_sin_le (x : R) : Rabs (sin x) <= Rabs x.
Proof.
  destruct (Rtotal_order x 0) as [H | [-> | H]].
  - rewrite (Rabs_left x) by exact H.
    pose proof (sin_lt_x (- x) ltac:(lra)) as H1. rewrite sin_neg in H1.
    pose proof (SIN_bound x).
    apply Rabs_le. destruct (Rle_lt_dec (- x) 1); [|lra].
    split; [lra|].
    destruct (Rle_lt_dec (sin x) 0); [lra|].
    pose proof (sin_lt_0_var x) as H2. pose proof PI_bounds. lra.
  - rewrite sin_0, Rabs_R0. lra.
  - rewrite (Rabs_pos_eq x) by lra.
    pose proof (sin_lt_x x H) as H1. pose proof (SIN_bound x).
    apply Rabs_le. split; [|lra].
    destruct (Rle_lt_dec x 1); [|lra].
    destruct (Rle_lt_dec 0 (sin x)); [lra|].
    pose proof (sin_gt_0 x) as H2. pose proof PI_bounds. lra.
Qed.

Lemma cos_lipschitz (p q : R) : Rabs (cos p - cos q) <= Rabs (p - q).
Proof.
  rewrite form2, !Rabs_mult.
  pose proof (Rabs_sin_le ((p - q) / 2)) as H1.
  pose proof (SIN_bound ((p + q) / 2)) as H2. apply Rabs_le in H2.
  pose proof (Rabs_pos (sin ((p - q) / 2))). pose proof (Rabs_pos (sin ((p + q) / 2))).
  replace (Rabs (-2)) with 2 by (rewrite Rabs_left; lra).
  replace (Rabs ((p - q) / 2)) with (Rabs (p - q) / 2) in H1
    by (unfold Rdiv; rewrite Rabs_mult, (Rabs_pos_eq (/ 2)); lra).
  nra.
Qed.

Lemma sin_lipschitz (p q : R) : Rabs (sin p - sin q) <= Rabs (p - q).
Proof.
  rewrite form4, !Rabs_mult.
  pose proof (Rabs_sin_le ((p - q) / 2)) as H1.
  pose proof (COS_bound ((p + q) / 2)) as H2. apply Rabs_le in H2.
  pose proof (Rabs_pos (sin ((p - q) / 2))). pose proof (Rabs_pos (cos ((p + q) / 2))).
  rewrite (Rabs_pos_eq 2) by lra.
  replace (Rabs ((p - q) / 2)) with (Rabs (p - q) / 2) in H1
    by (unfold Rdiv; rewrite Rabs_mult, (Rabs_pos_eq (/ 2)); lra).
  nra.
Qed.

Lemma within_rotation (a b tol : R) (k : Z) :
  Rabs (b - a - 2 * IZR k * PI) <= tol ->
  Np.within tol [[cos b; - sin b]; [sin b; cos b]]
                 [[cos a; - sin a]; [sin a; cos a]].
Proof.
  intros H.
  assert (Hc : Rabs (cos b - cos a) <= tol).
  { rewrite <- (cos_wrap b (- k)). eapply Rle_trans; [apply cos_lipschitz|].
    rewrite opp_IZR.
    replace (b + 2 * - IZR k * PI - a) with (b - a - 2 * IZR k * PI) by ring.
    exact H. }
  assert (Hs : Rabs (sin b - sin a) <= tol).
  { rewrite <- (sin_wrap b (- k)). eapply Rle_trans; [apply sin_lipschitz|].
    rewrite opp_IZR.
    replace (b + 2 * - IZR k * PI - a) with (b - a - 2 * IZR k * PI) by ring.
    exact H. }
  assert (Hs' : Rabs (- sin b - - sin a) <= tol).
  { replace (- sin b - - sin a) with (- (sin b - sin a)) by ring.
    now rewrite Rabs_Ropp. }
  unfold Np.within.
  repeat first [apply Forall2_nil | apply Forall2_cons]; assumption.
Qed.

Lemma within_weaken (tol tol' : R) (A B : Np.matrix) :
  tol <= tol' -> Np.within tol A B -> Np.within tol' A B.
Proof.
  intros Ht H. unfold Np.within in *.
  induction H as [|r r' A B Hr _ IH]; constructor; [|exact IH].
  induction Hr as [|x y r r' Hxy _ IHr]; constructor; [lra | exact IHr].
Qed.

Lemma cos_approx_2 (t : R) :
  cos_approx t 2 = 1 - t * t / 2 + (t * t) * (t * t) / 24.
Proof.
  unfold cos_approx, cos_term.
  cbn [sum_f_R0 Nat.mul Nat.add fact].
  repeat rewrite INR_IZR_INZ.
  cbn [Z.of_nat Pos.of_succ_nat Pos.succ]. simpl pow. field.
Qed.

(** A small angle, between 19 and 20 ten-thousandths, has a cosine
    visibly below 1. *)
Lemma cos_small_angle (t : R) :
  19 / 10000 <= t <= 20 / 10000 -> cos t <= 1 - 18 / 10 ^ 7.
Proof.
  intros Ht. pose proof PI_bounds.
  destruct (cos_bound t 0) as [_ Hub]; [lra | lra |].
  change (2 * (0 + 1))%nat with 2%nat in Hub.
  rewrite cos_approx_2 in Hub.
  set (u := t * t) in *.
  assert (Hu : 361 / 10 ^ 8 <= u <= 4 / 10 ^ 6) by (unfold u; nra).
  assert (Hu2 : 0 <= u * u <= 16 / 10 ^ 12) by nra.
  lra.
Qed.

(** Two points of the unit circle whose angles differ by [d] are
    [2 - 2 cos d] apart, squared. *)
Lemma chord_square (a b : R) :
  (cos b - cos a) * (cos b - cos a) + (sin b - sin a) * (sin b - sin a)
  = 2 - 2 * cos (b - a).
Proof.
  rewrite cos_minus.
  pose proof (sin2_cos2' a). pose proof (sin2_cos2' b). nra.
Qed.

(** The two large angles are binary64 numbers, and so is their conversion
    worked out below. *)
Lemma round_9e15 : F64.round 9000000000000000 = 9000000000000000.
Proof.
  rewrite (round_eval _ 52 9000000000000000).
  - simpl. ring.
  - rewrite Rabs_pos_eq by lra. simpl. lra.
  - simpl. lra.
Qed.

Lemma round_9e15_360 : F64.round (9000000000000000 + 360) = 9000000000000000 + 360.
Proof.
  rewrite (round_eval _ 52 9000000000000360).
  - simpl. ring.
  - rewrite Rabs_pos_eq by lra. simpl. lra.
  - simpl. lra.
Qed.

Lemma round_360 : F64.round 360 = 360.
Proof.
  rewrite (round_eval _ 8 6333186975989760).
  - simpl. field.
  - rewrite Rabs_pos_eq by lra. simpl. lra.
  - simpl. lra.
Qed.

Lemma radians_9e15 : F64.radians 9000000000000000 = 5026548245743669 / 32.
Proof.
  unfold F64.radians, F64.deg2rad.
  rewrite (round_eval _ 47 5026548245743669).
  - simpl. field.
  - rewrite Rabs_pos_eq by (simpl; lra). simpl. lra.
  - simpl. lra.
Qed.

Lemma radians_9e15_360 :
  F64.radians (9000000000000000 + 360) = 5026548245743870 / 32.
Proof.
  unfold F64.radians, F64.deg2rad.
  rewrite (round_eval _ 47 5026548245743870).
  - simpl. field.
  - rewrite Rabs_pos_eq by (simpl; lra). simpl. lra.
  - simpl. lra.
Qed.

Lemma radians_360_f64 : F64.radians 360 = 884279719003555 / 2 ^ 47.
Proof.
  unfold F64.radians, F64.deg2rad.
  rewrite (round_eval _ 2 7074237752028440).
  - simpl. field.
  - rewrite Rabs_pos_eq by (simpl; lra). simpl. lra.
  - simpl. lra.
Qed.

Lemma within_2x2_inv (tol a b c d a' b' c' d' : R) :
  Np.within tol [[a; b]; [c; d]] [[a'; b']; [c'; d']] ->
  Rabs (a - a') <= tol /\ Rabs (c - c') <= tol.
Proof.
  intros H. inversion H as [|? ? ? ? H1 H2]; subst.
  inversion H1; subst. inversion H2 as [|? ? ? ? H3 _]; subst.
  inversion H3; subst. now split.
Qed.

(** Two rotation matrices whose angles differ by [d], with [cos d] visibly
    below 1, are not within one thousandth of each other. *)
Lemma not_within_rotation (a b : R) :
  cos (b - a) <= 1 - 18 / 10 ^ 7 ->
  ~ Np.within (1 / 1000) [[cos b; - sin b]; [sin b; cos b]]
                          [[cos a; - sin a]; [sin a; cos a]].
Proof.
  intros Hc H. apply within_2x2_inv in H as [H1 H2].
  assert (Hle : forall x, Rabs x <= 1 / 1000 -> - (1 / 1000) <= x <= 1 / 1000).
  { intros x Hx. pose proof (Rle_abs x). pose proof (Rle_abs (- x)) as Hn.
    rewrite Rabs_Ropp in Hn. lra. }
  apply Hle in H1. apply Hle in H2.
  pose proof (chord_square a b) as Hs. nra.
Qed.

(** C6, as stated, fails on binary64 angles: 9e15 and 9e15 + 360 are both
    binary64 numbers, their conversions to radians differ by 201/32, which
    misses a full turn by more than 0.0019, and the two matrices are not
    within one thousandth of each other. *)
Lemma periodizitaet_verletzt_bei_9e15 :
  F64.round 9000000000000000 = 9000000000000000
  /\ F64.round (9000000000000000 + 360) = 9000000000000000 + 360
  /\ F64.radians (9000000000000000 + 360) - F64.radians 9000000000000000 = 201 / 32
  /\ ~ Np.within (1 / 1000)
        (F64.erstelle_rotationsmatrix (9000000000000000 + 360))
        (F64.erstelle_rotationsmatrix 9000000000000000).
Proof.
  split; [exact round_9e15|]. split; [exact round_9e15_360|].
  assert (Hd : F64.radians (9000000000000000 + 360)
               - F64.radians 9000000000000000 = 201 / 32)
    by (rewrite radians_9e15, radians_9e15_360; field).
  split; [exact Hd|].
  unfold F64.erstelle_rotationsmatrix; cbv zeta.
  apply not_within_rotation. rewrite Hd.
  pose proof PI_bounds.
  replace (201 / 32) with (- (2 * PI - 201 / 32) + 2 * IZR 1 * PI) by (simpl; field).
  rewrite cos_wrap, cos_neg.
  apply cos_small_angle. lra.
Qed.

(** C5, as stated, fails on binary64 angles: 9e15, 360 and their sum are
    binary64 numbers, and the
    product of the two matrices is the rotation by the sum of the two
    converted angles, which differs from the conversion of 9e15 + 360 by
    more than 0.0019, and it is not within one thousandth of the matrix
    built for the sum. *)
Lemma komposition_verletzt_bei_9e15 :
  F64.round 9000000000000000 = 9000000000000000
  /\ F64.round 360 = 360
  /\ F64.round (9000000000000000 + 360) = 9000000000000000 + 360
  /\ exists P : Np.matrix,
    Np.matmul (F64.erstelle_rotationsmatrix 9000000000000000)
              (F64.erstelle_rotationsmatrix 360) = Ok P
    /\ ~ Np.within (1 / 1000) P
          (F64.erstelle_rotationsmatrix (9000000000000000 + 360)).
Proof.
  split; [exact round_9e15|]. split; [exact round_360|].
  split; [exact round_9e15_360|].
  unfold F64.erstelle_rotationsmatrix; cbv zeta.
  rewrite matmul_2x2. eexists. split; [reflexivity|].
  set (a := F64.radians 9000000000000000).
  set (b := F64.radians 360).
  set (c := F64.radians (9000000000000000 + 360)).
  replace (cos a * cos b + - sin a * sin b) with (cos (a + b)) by (rewrite cos_plus; ring).
  replace (cos a * - sin b + - sin a * cos b) with (- sin (a + b)) by (rewrite sin_plus; ring).
  replace (sin a * cos b + cos a * sin b) with (sin (a + b)) by (rewrite sin_plus; ring).
  replace (sin a * - sin b + cos a * cos b) with (cos (a + b)) by (rewrite cos_plus; ring).
  intros H. apply within_2x2_inv in H as [H1 H2].
  assert (Hle : forall x, Rabs x <= 1 / 1000 -> - (1 / 1000) <= x <= 1 / 1000).
  { intros x Hx. pose proof (Rle_abs x). pose proof (Rle_abs (- x)) as Hn.
    rewrite Rabs_Ropp in Hn. lra. }
  apply Hle in H1. apply Hle in H2.
  pose proof (chord_square c (a + b)) as Hs.
  assert (Hc : cos (a + b - c) <= 1 - 18 / 10 ^ 7).
  { unfold a, b, c. rewrite radians_9e15, radians_9e15_360, radians_360_f64.
    replace (5026548245743669 / 32 + 884279719003555 / 2 ^ 47 - 5026548245743870 / 32)
      with (884279719003555 / 2 ^ 47 - 201 / 32) by field.
    apply cos_small_angle. lra. }
  nra.
Qed.

Lemma radians_0_f64 : F64.radians 0 = 0.
Proof.
  unfold F64.radians, F64.round. rewrite Rmult_0_l.
  destruct (Req_dec_T 0 0); [reflexivity | contradiction].
Qed.

Lemma kappa_pos : 0 < F64.kappa.
Proof. unfold F64.kappa. simpl. lra. Qed.

(** C6, amended: with exact conversion to radians the matrix for an angle
    plus any whole number of turns is the matrix for the angle.  With the
    binary64 conversion of [np.radians] each entry of the matrix for
    [th + 360 k] is within 1e-15 + 1e-17 * (2 |th| + 360 |k|) of the entry
    for [th], angles in degrees, and the matrix for 360 is within 4e-16 of
    the matrix for 0. *)
Theorem rotationsmatrix_periodic_binary64 :
  (forall (th : R) (k : Z),
     erstelle_rotationsmatrix (th + 360 * IZR k) = erstelle_rotationsmatrix th)
  /\ (forall (th : R) (k : Z),
        Np.within (1 / 10 ^ 15 + F64.kappa * (2 * Rabs th + 360 * Rabs (IZR k)))
          (F64.erstelle_rotationsmatrix (th + 360 * IZR k))
          (F64.erstelle_rotationsmatrix th))
  /\ Np.within (4 / 10 ^ 16)
        (F64.erstelle_rotationsmatrix 360) (F64.erstelle_rotationsmatrix 0).
Proof.
  split; [apply rotationsmatrix_periodic|]. split.
  - intros th k. unfold F64.erstelle_rotationsmatrix; cbv zeta.
    apply within_weaken with (F64.kappa * (2 * Rabs th + 360 * Rabs (IZR k)));
      [simpl; lra|].
    apply (within_rotation _ _ _ k).
    pose proof (radians_error (th + 360 * IZR k)) as H1.
    pose proof (radians_error th) as H2.
    pose proof kappa_pos as Hk.
    assert (Ht : Rabs (th + 360 * IZR k) <= Rabs th + 360 * Rabs (IZR k)).
    { eapply Rle_trans; [apply Rabs_triang|].
      rewrite Rabs_mult, (Rabs_pos_eq 360) by lra. lra. }
    replace (F64.radians (th + 360 * IZR k) - F64.radians th - 2 * IZR k * PI)
      with ((F64.radians (th + 360 * IZR k) - Np.radians (th + 360 * IZR k))
            - (F64.radians th - Np.radians th))
      by (unfold Np.radians; field).
    eapply Rle_trans; [apply Rabs_triang|]. rewrite Rabs_Ropp.
    assert (H3 : F64.kappa * Rabs (th + 360 * IZR k)
                 <= F64.kappa * (Rabs th + 360 * Rabs (IZR k)))
      by (apply Rmult_le_compat_l; lra).
    lra.
  - unfold F64.erstelle_rotationsmatrix; cbv zeta.
    rewrite radians_360_f64, radians_0_f64.
    apply (within_rotation _ _ _ 1).
    pose proof PI_bounds. apply Rabs_le. simpl. lra.
Qed.

(** C5, amended: with exact conversion to radians the product of the
    matrices built for two angles is the matrix built for their sum.  With
    the binary64 conversion of [np.radians] each entry of the product is
    within 1e-15 + 1e-17 * (|th1| + |th2| + |th1 + th2|) of the entry of the
    matrix built for the sum, angles in degrees. *)
Theorem rotationsmatrix_composition_binary64 (th1 th2 : R) :
  Np.matmul (erstelle_rotationsmatrix th1) (erstelle_rotationsmatrix th2)
  = Ok (erstelle_rotationsmatrix (th1 + th2))
  /\ exists P : Np.matrix,
       Np.matmul (F64.erstelle_rotationsmatrix th1)
                 (F64.erstelle_rotationsmatrix th2) = Ok P
       /\ Np.within
            (1 / 10 ^ 15
             + F64.kappa * (Rabs th1 + Rabs th2 + Rabs (th1 + th2)))
            P (F64.erstelle_rotationsmatrix (th1 + th2)).
Proof.
  split; [apply rotationsmatrix_composition|].
  unfold F64.erstelle_rotationsmatrix; cbv zeta.
  rewrite matmul_2x2. eexists. split; [reflexivity|].
  set (a := F64.radians th1). set (b := F64.radians th2).
  set (c := F64.radians (th1 + th2)).
  replace (cos a * cos b + - sin a * sin b) with (cos (a + b)) by (rewrite cos_plus; ring).
  replace (cos a * - sin b + - sin a * cos b) with (- sin (a + b)) by (rewrite sin_plus; ring).
  replace (sin a * cos b + cos a * sin b) with (sin (a + b)) by (rewrite sin_plus; ring).
  replace (sin a * - sin b + cos a * cos b) with (cos (a + b)) by (rewrite cos_plus; ring).
  apply within_weaken with (F64.kappa * (Rabs th1 + Rabs th2 + Rabs (th1 + th2)));
    [simpl; lra|].
  apply (within_rotation _ _ _ 0).
  pose proof (radians_error th1) as H1. pose proof (radians_error th2) as H2.
  pose proof (radians_error (th1 + th2)) as H3.
  replace (a + b - c - 2 * 0 * PI)
    with ((a - Np.radians th1) + (b - Np.radians th2)
          - (c - Np.radians (th1 + th2)))
    by (unfold Np.radians; field).
  eapply Rle_trans; [apply Rabs_triang|]. rewrite Rabs_Ropp.
  eapply Rle_trans; [apply Rplus_le_compat_r, Rabs_triang|].
  fold a b c in H1, H2, H3. lra.
Qed.
